(** * update_smm_data.py: the SMM price updater, embedded and verified

    The script fetches price series from a JSON endpoint, normalises them
    into [{date, price}] points, formats them as a JavaScript block and
    substitutes that block into an HTML document with [re.sub].

    The embedding follows the source function by function:
    [fetch_smm_data], [format_data_for_js], [update_html_file], [main].
    Python text is a list of Unicode code points; exceptions are an
    outcome type; printing, the file system and the network are explicit
    state. *)

From Stdlib Require Import ZArith NArith List String Ascii Floats Lia.
From stdpp Require Import base option list gmap sorting.
Import ListNotations.

Local Open Scope N_scope.

(** ** Python text *)

(** A Python [str] is a sequence of code points. *)
Abbreviation char := N (only parsing).
Abbreviation str := (list N) (only parsing).

(** Source literals are written as UTF-8 strings and decoded to code points. *)
Fixpoint utf8_decode (bs : list N) : str :=
  match bs with
  | [] => []
  | b :: r =>
      if b <? 128 then b :: utf8_decode r
      else if b <? 224 then
        match r with
        | b1 :: r' => ((b - 192) * 64 + (b1 - 128)) :: utf8_decode r'
        | _ => []
        end
      else if b <? 240 then
        match r with
        | b1 :: b2 :: r' =>
            ((b - 224) * 4096 + (b1 - 128) * 64 + (b2 - 128)) :: utf8_decode r'
        | _ => []
        end
      else
        match r with
        | b1 :: b2 :: b3 :: r' =>
            ((b - 240) * 262144 + (b1 - 128) * 4096 + (b2 - 128) * 64 + (b3 - 128))
              :: utf8_decode r'
        | _ => []
        end
  end.

Definition lit (s : string) : str :=
  utf8_decode (map N_of_ascii (list_ascii_of_string s)).

(** [sep.join(parts)] *)
Fixpoint join (sep : str) (parts : list str) : str :=
  match parts with
  | [] => []
  | [p] => p
  | p :: rest => p ++ sep ++ join sep rest
  end.

(** [a < b] on [str]: lexicographic order on code points. *)
Fixpoint str_ltb (a b : str) : bool :=
  match a, b with
  | _, [] => false
  | [], _ :: _ => true
  | x :: a', y :: b' =>
      if x <? y then true else if y <? x then false else str_ltb a' b'
  end.

(** [a <= b], as [not (b < a)]. *)
Definition str_le (a b : str) : Prop := str_ltb b a = false.

(** ** The interpreter's library

    Four library functions the script calls are not part of the repository
    and have no short definition: conversion of text to a float, [repr] of
    a float, the Unicode decimal-digit table behind [\d], and the parser of
    replacement templates of [re.sub].  The clock is the fifth.  They are
    taken as parameters of the model. *)
Class PyRuntime := {
  (** [float(s)] for a [str]; [None] is [ValueError]. *)
  float_of_str : str → option float;
  (** [repr(x)] of a float, which is what an f-string field prints. *)
  float_repr : float → str;
  (** [\d] in a [str] pattern: the Unicode decimal digits. *)
  unicode_digit : N → bool;
  (** The template of a replacement string that holds a backslash, for a
      pattern without groups: [None] is [re.error]; otherwise the expansion,
      given the matched text. *)
  compile_template : str → option (str → str);
  (** [d.strftime('%Y-%m-%d')] for the day with ordinal [d]. *)
  strftime_ymd : Z → str;
}.

(** What the proofs use of the library. *)
Definition ascii_digit (c : N) : bool := (48 <=? c) && (c <=? 57).

(** A character of plain text: ASCII and not a backslash. *)
Definition plain_char (c : N) : bool := (c <? 128) && negb (c =? 92).

Class PyRuntimeLaws (rt : PyRuntime) : Prop := {
  (** No ASCII character other than 0-9 is a decimal digit. *)
  unicode_digit_ascii : ∀ c, c < 128 → unicode_digit c = ascii_digit c;
  (** [repr] of a float is made of digits, sign, point, exponent and the
      letters of inf and nan. *)
  float_repr_plain : ∀ x, forallb plain_char (float_repr x) = true;
}.

(** ** Exceptions *)

Inductive exn :=
| HTTPError (code : Z)
| URLError (reason : str)
| ValueError
| TypeError
| OverflowError
| IndexError
| FileNotFoundError
| ReError
| OtherException
| KeyboardInterrupt
| SystemExit (code : Z).

(** [isinstance(e, Exception)]: everything but the two [BaseException]s. *)
Definition is_Exception (e : exn) : bool :=
  match e with
  | KeyboardInterrupt | SystemExit _ => false
  | _ => true
  end.

Inductive outcome (A : Type) :=
| Ok (a : A)
| Raise (e : exn).
Arguments Ok {A} a.
Arguments Raise {A} e.

#[export] Instance outcome_ret : MRet outcome := λ A a, Ok a.
#[export] Instance outcome_bind : MBind outcome := λ A B f m,
  match m with
  | Ok a => f a
  | Raise e => Raise e
  end.

(** ** Data model *)

Record PricePoint := { date : str; price : float }.

(** A JSON value as [json.loads] returns it, as far as [float()] and
    [is None] tell values apart. *)
Inductive jvalue :=
| JNull
| JBool (b : bool)
| JInt (z : Z)
| JFloat (x : float)
| JStr (s : str)
| JArray
| JObject.

(** One element of [data['data']['rows']].  [row_date] is the string under
    ['date'] ([None]: no such key, or null); the price fields are what
    [row.get(...)] returns, [JNull] for a missing key. *)
Record row := {
  row_date : option str;
  avg_price : jvalue;
  low_price : jvalue;
  high_price : jvalue;
}.

(** What [urlopen], [read], [decode] and [json.loads] give for a URL: an
    exception (also when the body lacks the dict shape the code indexes),
    or the body's status string and rows. *)
Inductive response :=
| Raises (e : exn)
| Json (status : option str) (rows : list row).

(** ** State: console, file system *)

Inductive msg :=
| MsgRule
| MsgTitle
| MsgDateRange (start_date end_date : str)
| MsgCostDateRange (cost_start_date end_date : str)
| MsgDash
| MsgFetching (name product_id : str)
| MsgFetchOk (n : nat) (latest : PricePoint)
| MsgFetchFail
| MsgStatusWarning
| MsgHTTPError (code : Z)
| MsgURLError (reason : str)
| MsgFetchError (e : exn)
| MsgMissing (missing : list str)
| MsgCheckNetwork
| MsgHtmlUpdated (html_path : str)
| MsgAllDone
| MsgSummaryHeader
| MsgDash40
| MsgSummary (name : str) (latest : PricePoint)
| MsgUpdateFailed (e : exn).

Inductive event :=
| Console (m : msg)
| FileRead (path : str)
| FileWrite (path content : str).

Record world := {
  trace : list event;
  files : gmap (list N) (list N);
}.

(** State and exceptions. *)
Definition M (A : Type) : Type := world → world * outcome A.

#[export] Instance M_ret : MRet M := λ A a w, (w, Ok a).
#[export] Instance M_bind : MBind M := λ A B f m w,
  match m w with
  | (w', Ok a) => f a w'
  | (w', Raise e) => (w', Raise e)
  end.

Definition raise {A} (e : exn) : M A := λ w, (w, Raise e).
Definition lift {A} (r : outcome A) : M A := λ w, (w, r).
Definition emit (ev : event) : M unit :=
  λ w, ({| trace := trace w ++ [ev]; files := files w |}, Ok ()).
Definition print (m : msg) : M unit := emit (Console m).

(** [try: body  except ...: handler] *)
Definition try_except {A} (body : M A) (handler : exn → M A) : M A := λ w,
  match body w with
  | (w', Raise e) => handler e w'
  | r => r
  end.

(** ** The product registry *)

Definition SMM_PRODUCTS : list (str * str) := Eval vm_compute in
  [ (lit "silver", lit "202512220022");
    (lit "wafer", lit "202303220001");
    (lit "silicon", lit "202501060003");
    (lit "cell", lit "202210280001");
    (lit "bcModule", lit "202506060001");
    (lit "topconDomestic", lit "202310160001");
    (lit "hjtModule", lit "202505270001");
    (lit "topconFob182", lit "202505060001");
    (lit "topconFob210", lit "202505060002");
    (lit "percFob", lit "202507240001");
    (lit "topconIntegrated", lit "202412190004");
    (lit "topconSemi", lit "202412190005") ].

Definition PRODUCT_NAMES : list (str * str) := Eval vm_compute in
  [ (lit "silver", lit "Topcon正面细栅银浆");
    (lit "wafer", lit "N型硅片-183mm");
    (lit "silicon", lit "N型多晶硅");
    (lit "cell", lit "单晶Topcon电池片-183mm");
    (lit "bcModule", lit "BC组件-210R(分布式)");
    (lit "topconDomestic", lit "Topcon组件-182mm(分布式)");
    (lit "hjtModule", lit "HJT组件-210mm(分布式)");
    (lit "topconFob182", lit "TOPCon组件-182mm(FOB)");
    (lit "topconFob210", lit "TOPCon组件-210mm(FOB)");
    (lit "percFob", lit "单晶PERC电池片-182mm(FOB)");
    (lit "topconIntegrated", lit "Topcon183成本指数-一体化");
    (lit "topconSemi", lit "Topcon183成本指数-半一体化") ].

(** [d.get(key, default)] on a dict kept in insertion order. *)
Fixpoint dict_get (d : list (str * str)) (key default : str) : str :=
  match d with
  | [] => default
  | (k, v) :: d' => if bool_decide (k = key) then v else dict_get d' key default
  end.

(** ** Fetcher *)

Section Fetcher.
Context {rt : PyRuntime}.

(** [float(z)] for an [int]: the nearest double, [OverflowError] beyond the
    largest one. *)
Definition float_of_int (z : Z) : outcome float :=
  let x := SF2Prim (binary_normalize 53 1024 z 0 false) in
  if (PrimFloat.is_infinity x) then Raise OverflowError else Ok x.

(** [float(v)] *)
Definition py_float (v : jvalue) : outcome float :=
  match v with
  | JFloat x => Ok x
  | JInt z => float_of_int z
  | JBool b => Ok (if b then 1%float else 0%float)
  | JStr s =>
      match float_of_str s with
      | Some x => Ok x
      | None => Raise ValueError
      end
  | JNull | JArray | JObject => Raise TypeError
  end.

(** [v is None] *)
Definition is_None (v : jvalue) : bool :=
  match v with
  | JNull => true
  | _ => false
  end.

(** The body of [for row in rows], for one row: the value of [price] when
    the loop reaches [if date and price is not None]. *)
Definition row_price (r : row) : outcome jvalue :=
  let price := avg_price r in
  if is_None price then
    let low := low_price r in
    let high := high_price r in
    if negb (is_None low) && negb (is_None high) then
      l ← py_float low;
      h ← py_float high;
      Ok (JFloat ((l + h) / 2)%float)
    else Ok price
  else Ok price.

(** [row.get('date', '')] *)
Definition row_get_date (r : row) : str := default [] (row_date r).

(** [for row in rows: ...], appending to [result]. *)
Fixpoint fetch_rows (rows : list row) (result : list PricePoint)
  : outcome (list PricePoint) :=
  match rows with
  | [] => Ok result
  | r :: rows' =>
      let date := row_get_date r in
      price ← row_price r;
      result' ← (if negb (bool_decide (date = [])) && negb (is_None price)
                 then x ← py_float price;
                      Ok (result ++ [{| date := date; price := x |}])
                 else Ok result);
      fetch_rows rows' result'
  end.

(** [sorted(result, key=lambda x: x['date'])]: the sort is stable and uses
    [<] on the keys only, so its result is the one of stable insertion. *)
Fixpoint insert_by_date (p : PricePoint) (l : list PricePoint) : list PricePoint :=
  match l with
  | [] => [p]
  | q :: l' =>
      if str_ltb (date q) (date p) then q :: insert_by_date p l'
      else p :: q :: l'
  end.

Definition sorted (l : list PricePoint) : list PricePoint :=
  foldr insert_by_date [] l.

(** [not data.get('status') or data['status'] != 'ok'], negated. *)
Definition status_ok (status : option str) : bool :=
  match status with
  | Some s => negb (bool_decide (s = [])) && bool_decide (s = lit "ok")
  | None => false
  end.

Definition fetch_url (product_id start_date end_date : str) : str :=
  lit "https://hq.smm.cn/ajax/spot/history/" ++ product_id ++ lit "/"
    ++ start_date ++ lit "/" ++ end_date.

Definition fetch_smm_data (urlopen : str → response)
    (product_id start_date end_date : str) : M (list PricePoint) :=
  let url := fetch_url product_id start_date end_date in
  try_except
    (match urlopen url with
     | Raises e => raise e
     | Json status rows =>
         if negb (status_ok status) then
           print MsgStatusWarning;;
           mret []
         else
           result ← lift (fetch_rows rows []);
           mret (sorted result)
     end)
    (λ e,
       match e with
       | HTTPError code => print (MsgHTTPError code);; mret []
       | URLError reason => print (MsgURLError reason);; mret []
       | _ =>
           if is_Exception e then print (MsgFetchError e);; mret []
           else raise e
       end).

End Fetcher.

(** ** Formatter *)

Section Formatter.
Context {rt : PyRuntime}.

(** [f'{{date: "{d["date"]}", price: {d["price"]}}}'] *)
Definition format_item (d : PricePoint) : str :=
  lit "{date: " ++ [34] ++ date d ++ [34] ++ lit ", price: "
    ++ float_repr (price d) ++ lit "}".

(** [for i in range(0, len(items), 2): chunk = items[i:i+2]] *)
Definition chunks (items : list str) : list (list str) :=
  map (λ k, take 2 (drop (2 * k) items)) (seq 0 ((length items + 1) / 2)).

Definition format_data_for_js (data : list PricePoint) : str :=
  match data with
  | [] => lit "[]"
  | _ =>
      let items := map format_item data in
      let lines := map (λ chunk, lit "                " ++ join (lit ", ") chunk)
                       (chunks items) in
      [91; 10] ++ join [44; 10] lines ++ [10] ++ lit "            ]"
  end.

End Formatter.

(** ** Regular expressions

    The two patterns of [update_html_file] use literal characters, [\d]
    and the lazy [.*?] under [re.DOTALL].  [match_here] is the backtracking
    matcher of [re] on that fragment: it gives the length of the match that
    starts at the head of the text, trying for [.*?] the shortest extension
    first. *)

Inductive re_item :=
| RChar (c : N)
| RDigit
| RLazyAny.

Definition re_lit (s : str) : list re_item := map RChar s.

Section Regex.
Context {rt : PyRuntime}.
Local Open Scope nat_scope.

Fixpoint match_here (p : list re_item) : str → option nat :=
  match p with
  | [] => λ _, Some 0
  | RChar c :: p' => λ s,
      match s with
      | x :: s' => if (x =? c)%N then S <$> match_here p' s' else None
      | [] => None
      end
  | RDigit :: p' => λ s,
      match s with
      | x :: s' => if unicode_digit x then S <$> match_here p' s' else None
      | [] => None
      end
  | RLazyAny :: p' =>
      fix scan (s : str) : option nat :=
        match match_here p' s with
        | Some n => Some n
        | None =>
            match s with
            | [] => None
            | _ :: s' => S <$> scan s'
            end
        end
  end.

(** [re.search]: position and length of the leftmost match. *)
Fixpoint search (p : list re_item) (s : str) : option (nat * nat) :=
  match match_here p s with
  | Some n => Some (0, n)
  | None =>
      match s with
      | [] => None
      | _ :: s' => (λ '(i, n), (S i, n)) <$> search p s'
      end
  end.

(** The scan of [re.sub]: [skip] characters of a match already replaced
    are still to be passed over.  Both patterns of the script start with a
    literal and never match the empty string; for an empty match the
    replacement is emitted and the scan moves on by one character. *)
Fixpoint sub_scan (p : list re_item) (template : str → str) (skip : nat)
    (s : str) : str :=
  match s with
  | [] =>
      match skip, match_here p [] with
      | 0, Some _ => template []
      | _, _ => []
      end
  | c :: s' =>
      match skip with
      | S k => sub_scan p template k s'
      | 0 =>
          match match_here p s with
          | Some (S n) => template (take (S n) s) ++ sub_scan p template n s'
          | Some 0 => template [] ++ c :: sub_scan p template 0 s'
          | None => c :: sub_scan p template 0 s'
          end
      end
  end.

(** A replacement string without a backslash is used as it is; one with a
    backslash goes through the template parser, which may reject it.  The
    template is prepared before the text is searched. *)
Definition has_backslash (repl : str) : bool := existsb (λ c, (c =? 92)%N) repl.

Definition prepare_template (repl : str) : outcome (str → str) :=
  if has_backslash repl then
    match compile_template repl with
    | Some f => Ok f
    | None => Raise ReError
    end
  else Ok (λ _, repl).

(** [re.sub(pattern, repl, string)] with the default [count=0]. *)
Definition re_sub (p : list re_item) (repl s : str) : outcome str :=
  template ← prepare_template repl;
  Ok (sub_scan p template 0 s).

End Regex.

(** ** Document updater *)

(** [r'// SMM真实数据.*?const smmData = \{.*?\n        \};'] with [re.DOTALL] *)
Definition block_head : str := Eval vm_compute in lit "// SMM真实数据".
Definition block_decl : str := Eval vm_compute in lit "const smmData = {".
Definition block_close : str := Eval vm_compute in 10 :: lit "        };".

Definition pattern : list re_item :=
  re_lit block_head ++ [RLazyAny] ++ re_lit block_decl ++ [RLazyAny]
    ++ re_lit block_close.

(** [r'数据更新时间: \d{4}-\d{2}-\d{2}'] *)
Definition stamp_label : str := Eval vm_compute in lit "数据更新时间: ".

Definition stamp_pattern : list re_item :=
  re_lit stamp_label
    ++ [RDigit; RDigit; RDigit; RDigit; RChar 45; RDigit; RDigit; RChar 45;
        RDigit; RDigit].

Section Updater.
Context {rt : PyRuntime}.

(** [smm_data.get(key, [])] *)
Definition series_of (smm_data : gmap (list N) (list PricePoint)) (key : string)
  : list PricePoint :=
  default [] (smm_data !! lit key).

(** One line [            key: {},] of the block. *)
Definition field (smm_data : gmap (list N) (list PricePoint)) (key : string)
    (last : bool) : str :=
  lit "            " ++ lit key ++ lit ": "
    ++ format_data_for_js (series_of smm_data key)
    ++ (if last then [] else [44]) ++ [10].

(** The text of [smm_data_js], the template after [.format(...)]. *)
Definition smm_data_js (smm_data : gmap (list N) (list PricePoint))
    (update_date : str) : str :=
  lit "        // SMM真实数据 (" ++ update_date ++ lit "获取)" ++ [10]
    ++ lit "        const smmData = {" ++ [10]
    ++ lit "            // 原材料" ++ [10]
    ++ field smm_data "silver" false
    ++ field smm_data "wafer" false
    ++ field smm_data "silicon" false
    ++ field smm_data "cell" false
    ++ lit "            // 组件" ++ [10]
    ++ field smm_data "bcModule" false
    ++ field smm_data "topconDomestic" false
    ++ field smm_data "hjtModule" false
    ++ field smm_data "topconFob182" false
    ++ field smm_data "topconFob210" false
    ++ field smm_data "percFob" false
    ++ lit "            // 成本指数" ++ [10]
    ++ field smm_data "topconIntegrated" false
    ++ field smm_data "topconSemi" true
    ++ lit "        };".

(** The two substitutions of [update_html_file], on the text read. *)
Definition update_html_text (smm_data : gmap (list N) (list PricePoint))
    (update_date content : str) : outcome str :=
  new_content ← re_sub pattern (smm_data_js smm_data update_date) content;
  re_sub stamp_pattern (stamp_label ++ update_date) new_content.

(** [open(path, 'r').read()] and [open(path, 'w').write(text)] *)
Definition read_file (path : str) : M str := λ w,
  let w' := {| trace := trace w ++ [FileRead path]; files := files w |} in
  match files w !! path with
  | Some content => (w', Ok content)
  | None => (w', Raise FileNotFoundError)
  end.

Definition write_file (path content : str) : M unit := λ w,
  ({| trace := trace w ++ [FileWrite path content];
      files := <[path := content]> (files w) |}, Ok ()).

Definition update_html_file (html_path : str)
    (smm_data : gmap (list N) (list PricePoint)) (update_date : str) : M unit :=
  content ← read_file html_path;
  new_content ← lift (update_html_text smm_data update_date content);
  write_file html_path new_content;;
  print (MsgHtmlUpdated html_path).

End Updater.

(** ** Orchestrator *)

Section Orchestrator.
Context {rt : PyRuntime}.

(** [data[-1]] *)
Definition py_last {A} (l : list A) : outcome A :=
  match last l with
  | Some x => Ok x
  | None => Raise IndexError
  end.

Definition cost_keys : list str := Eval vm_compute in
  [lit "topconIntegrated"; lit "topconSemi"].

Definition required_keys : list str := Eval vm_compute in
  [lit "silver"; lit "wafer"; lit "silicon"; lit "cell"].

Definition summary_keys : list str := Eval vm_compute in
  [lit "silver"; lit "wafer"; lit "topconSemi"].

Definition html_path : str := Eval vm_compute in
  lit "/Users/onekey/.minimax-agent/projects/1/index.html".

(** The data one iteration of the fetch loop gets for [key]. *)
Definition fetch_product (urlopen : str → response)
    (start_date end_date cost_start_date key product_id : str)
  : M (list PricePoint) :=
  if bool_decide (key ∈ cost_keys)
  then fetch_smm_data urlopen product_id cost_start_date end_date
  else fetch_smm_data urlopen product_id start_date end_date.

(** [for key, product_id in SMM_PRODUCTS.items(): ...] *)
Fixpoint fetch_pass (urlopen : str → response)
    (start_date end_date cost_start_date : str)
    (products : list (str * str))
    (smm_data : gmap (list N) (list PricePoint))
  : M (gmap (list N) (list PricePoint)) :=
  match products with
  | [] => mret smm_data
  | (key, product_id) :: products' =>
      let name := dict_get PRODUCT_NAMES key key in
      print (MsgFetching name product_id);;
      data ← fetch_product urlopen start_date end_date cost_start_date
               key product_id;
      smm_data' ←
        (match data with
         | _ :: _ =>
             let smm_data' := <[key := data]> smm_data in
             latest ← lift (py_last data);
             print (MsgFetchOk (length data) latest);;
             mret smm_data'
         | [] =>
             print MsgFetchFail;;
             mret smm_data
         end);
      fetch_pass urlopen start_date end_date cost_start_date products' smm_data'
  end.

(** [k not in smm_data or not smm_data[k]] *)
Definition is_missing (smm_data : gmap (list N) (list PricePoint)) (k : str)
  : bool :=
  match smm_data !! k with
  | None => true
  | Some [] => true
  | Some (_ :: _) => false
  end.

(** [for key in ['silver', 'wafer', 'topconSemi']: ...] *)
Fixpoint print_summary (smm_data : gmap (list N) (list PricePoint))
    (keys : list str) : M unit :=
  match keys with
  | [] => mret ()
  | key :: keys' =>
      (if negb (is_missing smm_data key) then
         latest ← lift (py_last (default [] (smm_data !! key)));
         let name := dict_get PRODUCT_NAMES key key in
         print (MsgSummary name latest)
       else mret ());;
      print_summary smm_data keys'
  end.

(** [main()], at the day [today] of [datetime.now()]. *)
Definition main (urlopen : str → response) (today : Z) : M unit :=
  print MsgRule;;
  print MsgTitle;;
  print MsgRule;;
  let start_date := strftime_ymd (today - 45) in
  let end_date := strftime_ymd today in
  let cost_start_date := strftime_ymd (today - 90) in
  print (MsgDateRange start_date end_date);;
  print (MsgCostDateRange cost_start_date end_date);;
  print MsgDash;;
  smm_data ← fetch_pass urlopen start_date end_date cost_start_date
               SMM_PRODUCTS ∅;
  print MsgRule;;
  let missing := List.filter (is_missing smm_data) required_keys in
  match missing with
  | _ :: _ =>
      print (MsgMissing missing);;
      print MsgCheckNetwork;;
      raise (SystemExit 1)
  | [] =>
      let update_date := strftime_ymd today in
      try_except
        (update_html_file html_path smm_data update_date;;
         print MsgAllDone;;
         print MsgSummaryHeader;;
         print MsgDash40;;
         print_summary smm_data summary_keys)
        (λ e,
           if is_Exception e then
             print (MsgUpdateFailed e);;
             raise (SystemExit 1)
           else raise e)
  end.

(** The status the process ends with. *)
Definition exit_status (r : outcome unit) : Z :=
  match r with
  | Ok _ => 0
  | Raise (SystemExit code) => code
  | Raise KeyboardInterrupt => 130
  | Raise _ => 1
  end.

End Orchestrator.

(** ** An executable runtime

    To run the model on concrete inputs the five library functions need
    values.  [example_runtime] computes them on the part of their domain
    the examples use, where it agrees with CPython:
    - [\d] on ASCII text;
    - [repr] of zero, infinities, nan and of floats whose decimal expansion
      has at most 15 significant digits and lies in [1e-4, 1e16) (other
      floats are printed in full, not shortest);
    - [float(s)] on plain numerals [-ddd.ddd] of at most 15 digits, and its
      [ValueError] on text that is no numeral at all (other numerals are
      rejected too);
    - no replacement template with a backslash is accepted;
    - [strftime('%Y-%m-%d')] for years 1000 to 9999. *)

Module Exec.

Fixpoint decimal_go (fuel : nat) (n : N) (acc : str) : str :=
  match fuel with
  | O => acc
  | S fuel' =>
      let acc' := (48 + n mod 10) :: acc in
      if n / 10 =? 0 then acc' else decimal_go fuel' (n / 10) acc'
  end.

(** [str(n)] for a natural number. *)
Definition decimal (n : N) : str :=
  decimal_go (S (N.to_nat (N.log2 n))) n [].

(** [n] digits, zero-padded on the left. *)
Definition pad_left (n : nat) (s : str) : str :=
  replicate (n - length s)%nat 48 ++ s.

Fixpoint strip_zeros_rev (s : str) : str :=
  match s with
  | 48 :: s' => strip_zeros_rev s'
  | _ => s
  end.

Definition strip_trailing_zeros (s : str) : str :=
  rev (strip_zeros_rev (rev s)).

Definition float_repr (x : float) : str :=
  match Prim2SF x with
  | S754_zero s => if s then lit "-0.0" else lit "0.0"
  | S754_infinity s => if s then lit "-inf" else lit "inf"
  | S754_nan => lit "nan"
  | S754_finite s m e =>
      let sign := if s then [45] else [] in
      match e with
      | Zneg k =>
          let k' := Pos.to_nat k in
          let ds := pad_left (S k') (decimal (Npos m * 5 ^ Npos k)) in
          let int_part := take (length ds - k')%nat ds in
          let frac_part := strip_trailing_zeros (drop (length ds - k')%nat ds) in
          sign ++ int_part ++ [46]
            ++ (match frac_part with [] => [48] | _ => frac_part end)
      | _ => sign ++ decimal (Npos m * 2 ^ Z.to_N e) ++ lit ".0"
      end
  end.

Fixpoint digits_value (s : str) (acc : N) : option N :=
  match s with
  | [] => Some acc
  | c :: s' =>
      if ascii_digit c then digits_value s' (10 * acc + (c - 48)) else None
  end.

Definition float_of_Z (z : Z) : float :=
  SF2Prim (binary_normalize 53 1024 z 0 false).

(** The digits before the point, and those after it when there is one. *)
Fixpoint split_point (s : str) : str * option str :=
  match s with
  | [] => ([], None)
  | 46 :: s' => ([], Some s')
  | c :: s' => let '(a, b) := split_point s' in (c :: a, b)
  end.

Definition float_of_str (s : str) : option float :=
  let '(neg, body) :=
    match s with
    | 45 :: s' => (true, s')
    | _ => (false, s)
    end in
  let '(int_part, frac) := split_point body in
  let frac_part := default [] frac in
  let digits := int_part ++ frac_part in
  if bool_decide (digits = []) || (15 <? length digits)%nat then None
  else
    n ← digits_value digits 0;
    let x := (float_of_Z (Z.of_N n)
              / float_of_Z (10 ^ Z.of_nat (length frac_part)))%float in
    Some (if neg then (- x)%float else x).

(** The civil date of a proleptic Gregorian ordinal (day 1 is 0001-01-01). *)
Definition civil (ordinal : Z) : Z * Z * Z :=
  (let z := ordinal + 305 in
   let era := z / 146097 in
   let doe := z - era * 146097 in
   let yoe := (doe - doe / 1460 + doe / 36524 - doe / 146096) / 365 in
   let doy := doe - (365 * yoe + yoe / 4 - yoe / 100) in
   let mp := (5 * doy + 2) / 153 in
   let d := doy - (153 * mp + 2) / 5 + 1 in
   let m := if mp <? 10 then mp + 3 else mp - 9 in
   let y := yoe + era * 400 + (if m <=? 2 then 1 else 0) in
   (y, m, d))%Z.

Definition strftime_ymd (ordinal : Z) : str :=
  let '(y, m, d) := civil ordinal in
  pad_left 4 (decimal (Z.to_N y)) ++ [45] ++ pad_left 2 (decimal (Z.to_N m))
    ++ [45] ++ pad_left 2 (decimal (Z.to_N d)).

End Exec.

Definition example_runtime : PyRuntime := {|
  float_of_str := Exec.float_of_str;
  float_repr := Exec.float_repr;
  unicode_digit := ascii_digit;
  compile_template := λ _, None;
  strftime_ymd := Exec.strftime_ymd;
|}.

(** * Specification vocabulary

    Definitions that state what the claims say, next to the embedded code
    they are compared with. *)

Section FetcherSpec.
Context {rt : PyRuntime}.

(** The value [fetch_smm_data] returns, read off its four exits. *)
Definition fetch_series (urlopen : str → response)
    (product_id start_date end_date : str) : outcome (list PricePoint) :=
  match urlopen (fetch_url product_id start_date end_date) with
  | Raises e => if is_Exception e then Ok [] else Raise e
  | Json status rows =>
      if status_ok status then
        match fetch_rows rows [] with
        | Ok result => Ok (sorted result)
        | Raise _ => Ok []
        end
      else Ok []
  end.

(** The point a record stands for, in the words of the specification: the
    record needs a date; its price is the average when there is one, else
    the mean of low and high when both are there. *)
Definition record_point (r : row) : option PricePoint :=
  match row_date r with
  | None | Some [] => None
  | Some d =>
      if negb (is_None (avg_price r)) then
        match py_float (avg_price r) with
        | Ok x => Some {| date := d; price := x |}
        | Raise _ => None
        end
      else if negb (is_None (low_price r)) && negb (is_None (high_price r)) then
        match py_float (low_price r), py_float (high_price r) with
        | Ok l, Ok h => Some {| date := d; price := ((l + h) / 2)%float |}
        | _, _ => None
        end
      else None
  end.

(** The series is in non-decreasing order of its date strings. *)
Definition date_le (p q : PricePoint) : Prop := str_le (date p) (date q).

End FetcherSpec.

(** The line [fetch_smm_data] prints when it catches [e]. *)
Definition diagnostic (e : exn) : msg :=
  match e with
  | HTTPError code => MsgHTTPError code
  | URLError reason => MsgURLError reason
  | _ => MsgFetchError e
  end.

(** [w] after one more line on the console. *)
Definition printed (w : world) (m : msg) : world :=
  {| trace := trace w ++ [Console m]; files := files w |}.

(** A world to start examples from: nothing printed, no file. *)
Definition empty_world : world := {| trace := []; files := ∅ |}.

(** The exceptions of a conversion: the ones the last handler catches. *)
Definition conversion_error (e : exn) : Prop :=
  e = ValueError ∨ e = TypeError ∨ e = OverflowError.

(** A response of three records, and a record whose price is no number. *)
Definition sample_rows : list row :=
  [ {| row_date := Some (lit "2025-01-02"); avg_price := JNull;
       low_price := JInt 10; high_price := JFloat 11 |};
    {| row_date := Some (lit "2025-01-01"); avg_price := JFloat 7.5;
       low_price := JNull; high_price := JNull |};
    {| row_date := None; avg_price := JInt 3;
       low_price := JNull; high_price := JNull |} ].

Definition sample_bad_row : row :=
  {| row_date := Some (lit "2025-01-03"); avg_price := JStr (lit "N/A");
     low_price := JNull; high_price := JNull |}.


(** ** Vocabulary for the two patterns *)

(** [s.startswith(a)] *)
Fixpoint starts_with (a s : str) : bool :=
  match a, s with
  | [], _ => true
  | x :: a', y :: s' => (x =? y) && starts_with a' s'
  | _ :: _, [] => false
  end.

(** [s.find(a)]: the index of the first occurrence of [a] in [s]. *)
Fixpoint find (a s : str) : option nat :=
  if starts_with a s then Some 0%nat
  else
    match s with
    | [] => None
    | _ :: s' => S <$> find a s'
    end.

(** What the block pattern matches at the head of [s]: the comment marker,
    then everything up to the first declaration marker, then everything up
    to the first closing marker after it. *)
Definition block_match (s : str) : option nat :=
  if starts_with block_head s then
    let s1 := drop (length block_head) s in
    i ← find block_decl s1;
    let s2 := drop (i + length block_decl) s1 in
    j ← find block_close s2;
    Some (length block_head + (i + length block_decl + (j + length block_close)))%nat
  else None.

Section PatternSpec.
Context {rt : PyRuntime}.

(** [s] starts with a date stamp: the label and [dddd-dd-dd]. *)
Definition is_stamp (s : str) : bool :=
  starts_with stamp_label s &&
  match drop 8 s with
  | y1 :: y2 :: y3 :: y4 :: h1 :: m1 :: m2 :: h2 :: d1 :: d2 :: _ =>
      unicode_digit y1 && unicode_digit y2 && unicode_digit y3
      && unicode_digit y4 && (h1 =? 45) && unicode_digit m1 && unicode_digit m2
      && (h2 =? 45) && unicode_digit d1 && unicode_digit d2
  | _ => false
  end.

(** The characters an item that is not [.*?] accepts. *)
Definition accepts (item : re_item) (c : N) : Prop :=
  match item with
  | RChar x => c = x
  | RDigit => unicode_digit c = true
  | RLazyAny => True
  end.

(** A pattern without [.*?]: its matches have the pattern's length. *)
Definition no_lazy (p : list re_item) : bool :=
  forallb (λ item, match item with RLazyAny => false | _ => true end) p.

(** The scan of [re.sub] cuts a text into gaps and matches: [splits p s
    segs tail] when [s] is the gaps and matches of [segs] in turn, each
    match the leftmost one in what is left, and [tail] holds no match. *)
Inductive splits (p : list re_item) : str → list (str * str) → str → Prop :=
| splits_done tail :
    search p tail = None →
    splits p tail [] tail
| splits_match gap m rest segs tail :
    search p (gap ++ m ++ rest) = Some (length gap, length m) →
    m ≠ [] →
    splits p rest segs tail →
    splits p (gap ++ m ++ rest) ((gap, m) :: segs) tail.

(** The text with each match replaced by [repl]. *)
Definition replaced (repl : str) (segs : list (str * str)) (tail : str) : str :=
  concat (map (λ seg, seg.1 ++ repl) segs) ++ tail.

(** Every date of the data set is plain text: ASCII without a backslash,
    as a date [YYYY-MM-DD] is. *)
Definition plain (s : str) : Prop := forallb plain_char s = true.

Definition dataset_plain (smm_data : gmap (list N) (list PricePoint)) : Prop :=
  ∀ k series p, smm_data !! k = Some series → p ∈ series → plain (date p).

End PatternSpec.

(** The date stamps of the update scenario. *)
Definition old_stamp : str := Eval vm_compute in stamp_label ++ lit "2024-01-01".
Definition new_stamp : str := Eval vm_compute in stamp_label ++ lit "2024-06-01".

(** A character that is neither a backslash nor the third character of
    the stamp label. *)
Definition block_safe_char (c : N) : bool := negb (c =? 92) && negb (c =? 26356).

(** [w] after [update_html_file] read [path] and wrote [content] to it. *)
Definition written (w : world) (path content : str) : world :=
  {| trace := trace w ++ [FileRead path; FileWrite path content;
                          Console (MsgHtmlUpdated path)];
     files := <[path := content]> (files w) |}.

(** A world whose only file is the document. *)
Definition world_with (path content : str) : world :=
  {| trace := []; files := {[path := content]} |}.

(** Documents to run the updater on: one with two data blocks, one with a
    date stamp and no block, one with a stamp and a block. *)
Definition two_blocks : str :=
  lit "A// SMM真实数据 1 const smmData = {a" ++ [10]
    ++ lit "        };B// SMM真实数据 const smmData = {" ++ [10]
    ++ lit "        };C".

Definition second_block : str :=
  lit "// SMM真实数据 const smmData = {" ++ [10] ++ lit "        };".

Definition stamp_only : str := lit "<p>数据更新时间: 2024-01-01</p>".

Definition page_head : str := lit "<p>".
Definition page_mid : str := lit "</p><script>" ++ [10] ++ lit "        ".
Definition page_block : str :=
  lit "// SMM真实数据 (2024-01-01获取)" ++ [10]
    ++ lit "        const smmData = {" ++ [10]
    ++ lit "            silver: []" ++ [10]
    ++ lit "        };".
Definition page_tail : str := [10] ++ lit "</script>".

Definition sample_data : gmap (list N) (list PricePoint) :=
  {[ lit "silver" := [ {| date := lit "2025-01-01"; price := 10.5 |};
                       {| date := lit "2025-01-02"; price := 11 |} ] ]}.

(** ** Vocabulary for the Orchestrator *)

Section OrchestratorSpec.
Context {rt : PyRuntime}.

(** The value one iteration of the fetch loop gets for a product. *)
Definition product_series (urlopen : str → response)
    (start_date end_date cost_start_date key product_id : str)
  : outcome (list PricePoint) :=
  if bool_decide (key ∈ cost_keys)
  then fetch_series urlopen product_id cost_start_date end_date
  else fetch_series urlopen product_id start_date end_date.

(** The statements of [main] up to the end of its fetch loop. *)
Definition fetch_phase (urlopen : str → response) (today : Z)
  : M (gmap (list N) (list PricePoint)) :=
  print MsgRule;;
  print MsgTitle;;
  print MsgRule;;
  let start_date := strftime_ymd (today - 45) in
  let end_date := strftime_ymd today in
  let cost_start_date := strftime_ymd (today - 90) in
  print (MsgDateRange start_date end_date);;
  print (MsgCostDateRange cost_start_date end_date);;
  print MsgDash;;
  fetch_pass urlopen start_date end_date cost_start_date SMM_PRODUCTS ∅.

(** The entry the data set has for a key whose fetch returned [data]. *)
Definition entry_of (data : list PricePoint) : option (list PricePoint) :=
  match data with
  | [] => None
  | _ :: _ => Some data
  end.

End OrchestratorSpec.

(** ** Vocabulary for the Formatter *)

(** The items of a series two by two, the last one alone when their number
    is odd. *)
Fixpoint pairs {A} (l : list A) : list (list A) :=
  match l with
  | a :: b :: l' => [a; b] :: pairs l'
  | [a] => [[a]]
  | [] => []
  end.

(** The indentation of a line of items. *)
Definition item_indent : str := lit "                ".

(** *** Reading the emitted block back

    The block is read the way the page's script reads it: as an array
    literal of object literals [{date: "...", price: <number>}], with white
    space free between the tokens. *)

Inductive token :=
| TOpenBracket
| TCloseBracket
| TOpenBrace
| TCloseBrace
| TColon
| TComma
| TString (s : str)
| TWord (s : str)
| TError.

Inductive lex_mode :=
| Between
| InString (acc : str)
| InWord (acc : str).

Definition js_space (c : N) : bool :=
  (c =? 32) || (c =? 10) || (c =? 9) || (c =? 13).

Definition punct (c : N) : option token :=
  if c =? 91 then Some TOpenBracket
  else if c =? 93 then Some TCloseBracket
  else if c =? 123 then Some TOpenBrace
  else if c =? 125 then Some TCloseBrace
  else if c =? 58 then Some TColon
  else if c =? 44 then Some TComma
  else None.

(** A character a string literal holds as it is: no double quote, no
    backslash, no line break. *)
Definition string_char (c : N) : bool :=
  negb (c =? 34) && negb (c =? 92) && negb (c =? 10) && negb (c =? 13).

(** The tokens of a text.  A string literal that is not closed on its line
    or holds a backslash, and a quote inside a word, are errors. *)
Fixpoint lex (s : str) (mode : lex_mode) : list token :=
  match s with
  | [] =>
      match mode with
      | Between => []
      | InString _ => [TError]
      | InWord acc => [TWord (rev acc)]
      end
  | c :: s' =>
      match mode with
      | Between =>
          if js_space c then lex s' Between
          else if c =? 34 then lex s' (InString [])
          else
            match punct c with
            | Some t => t :: lex s' Between
            | None => lex s' (InWord [c])
            end
      | InString acc =>
          if c =? 34 then TString (rev acc) :: lex s' Between
          else if string_char c then lex s' (InString (c :: acc))
          else [TError]
      | InWord acc =>
          if js_space c then TWord (rev acc) :: lex s' Between
          else if c =? 34 then [TError]
          else
            match punct c with
            | Some t => TWord (rev acc) :: t :: lex s' Between
            | None => lex s' (InWord (c :: acc))
            end
      end
  end.

(** A decimal numeral: [-ddd], [-ddd.ddd], either with an exponent
    [e+dd], [e-dd] or [edd]. *)
Inductive num_state :=
| NStart | NSign | NInt | NPoint | NFrac | NExp | NExpSign | NExpInt.

Definition num_step (q : num_state) (c : N) : option num_state :=
  if ascii_digit c then
    match q with
    | NStart | NSign | NInt => Some NInt
    | NPoint | NFrac => Some NFrac
    | NExp | NExpSign | NExpInt => Some NExpInt
    end
  else if c =? 45 then
    match q with
    | NStart => Some NSign
    | NExp => Some NExpSign
    | _ => None
    end
  else if c =? 43 then
    match q with
    | NExp => Some NExpSign
    | _ => None
    end
  else if c =? 46 then
    match q with
    | NInt => Some NPoint
    | _ => None
    end
  else if (c =? 101) || (c =? 69) then
    match q with
    | NInt | NFrac => Some NExp
    | _ => None
    end
  else None.

Definition num_final (q : num_state) : bool :=
  match q with
  | NInt | NFrac | NExpInt => true
  | _ => false
  end.

Fixpoint num_run (q : num_state) (s : str) : bool :=
  match s with
  | [] => num_final q
  | c :: s' =>
      match num_step q c with
      | Some q' => num_run q' s'
      | None => false
      end
  end.

Definition is_numeral (s : str) : bool := num_run NStart s.

(** The objects of an array literal, after its opening bracket: each has
    the fields [date], a string, and [price], a numeral, in that order. *)
Fixpoint parse_items (ts : list token) : option (list (str * str)) :=
  match ts with
  | TOpenBrace :: TWord k1 :: TColon :: TString d :: TComma
      :: TWord k2 :: TColon :: TWord n :: TCloseBrace :: rest =>
      if bool_decide (k1 = lit "date") && bool_decide (k2 = lit "price")
         && is_numeral n
      then
        match rest with
        | [TCloseBracket] => Some [(d, n)]
        | TComma :: rest' => ((d, n) ::.) <$> parse_items rest'
        | _ => None
        end
      else None
  | _ => None
  end.

Definition parse_js_array (s : str) : option (list (str * str)) :=
  match lex s Between with
  | [TOpenBracket; TCloseBracket] => Some []
  | TOpenBracket :: ts => parse_items ts
  | _ => None
  end.

Section FormatterSpec.
Context {rt : PyRuntime}.

(** The points a block holds: its objects, each numeral read as a float. *)
Definition reparse (s : str) : option (list PricePoint) :=
  objects ← parse_js_array s;
  mapM (λ o, x ← float_of_str o.2; Some {| date := o.1; price := x |}) objects.

(** A point the block can hold: its date fits a string literal as it is,
    and its price is printed as a numeral that reads back as the price. *)
Definition quotable (p : PricePoint) : Prop :=
  forallb string_char (date p) = true.

Definition numeric (p : PricePoint) : Prop :=
  is_numeral (float_repr (price p)) = true
  ∧ float_of_str (float_repr (price p)) = Some (price p).

(** The tokens of a point's object literal, and of a series' objects. *)
Definition item_tokens (p : PricePoint) : list token :=
  [TOpenBrace; TWord (lit "date"); TColon; TString (date p); TComma;
   TWord (lit "price"); TColon; TWord (float_repr (price p)); TCloseBrace].

Fixpoint series_tokens (data : list PricePoint) : list token :=
  match data with
  | [] => []
  | [p] => item_tokens p
  | p :: rest => item_tokens p ++ TComma :: series_tokens rest
  end.

(** The lines of a non-empty series, joined. *)
Definition body (data : list PricePoint) : str :=
  join [44; 10]
    (map (λ chunk, item_indent ++ join (lit ", ") chunk)
       (pairs (map format_item data))).

End FormatterSpec.

(** The series of the round-trip example, and a provider record whose date
    holds a double quote. *)
Definition sample_series : list PricePoint :=
  [ {| date := lit "2025-01-01"; price := 10.5 |};
    {| date := lit "2025-01-02"; price := 11 |} ].

Definition quote_date : str :=
  lit "2025-01-01" ++ [34] ++ lit ", price: 10.5}, {date: " ++ [34]
    ++ lit "2025-01-02".

Definition quote_row : row :=
  {| row_date := Some quote_date; avg_price := JInt 11;
     low_price := JNull; high_price := JNull |}.

Definition infinite_row : row :=
  {| row_date := Some (lit "2025-01-01"); avg_price := JFloat infinity;
     low_price := JNull; high_price := JNull |}.

(** ** Vocabulary for running the updater again *)

(** The indentation the block is written with. *)
Definition block_indent : str := Eval vm_compute in lit "        ".

(** A text without a semicolon. *)
Definition no_semicolon (s : str) : Prop :=
  forallb (λ c, negb (c =? 59)) s = true.

Section RerunSpec.
Context {rt : PyRuntime}.

(** No date of the data set holds a semicolon, and no price is printed
    with one. *)
Definition dataset_no_semicolon (smm_data : gmap (list N) (list PricePoint))
  : Prop :=
  ∀ k series p, smm_data !! k = Some series → p ∈ series →
    no_semicolon (date p) ∧ no_semicolon (float_repr (price p)).

(** The block between its comment marker and its declaration marker, and
    between the declaration marker and the closing marker. *)
Definition block_mid (update_date : str) : str :=
  lit " (" ++ update_date ++ lit "获取)" ++ [10] ++ block_indent.

Definition block_rest (smm_data : gmap (list N) (list PricePoint)) : str :=
  [10]
    ++ lit "            // 原材料" ++ [10]
    ++ field smm_data "silver" false
    ++ field smm_data "wafer" false
    ++ field smm_data "silicon" false
    ++ field smm_data "cell" false
    ++ lit "            // 组件" ++ [10]
    ++ field smm_data "bcModule" false
    ++ field smm_data "topconDomestic" false
    ++ field smm_data "hjtModule" false
    ++ field smm_data "topconFob182" false
    ++ field smm_data "topconFob210" false
    ++ field smm_data "percFob" false
    ++ lit "            // 成本指数" ++ [10]
    ++ field smm_data "topconIntegrated" false
    ++ lit "            " ++ lit "topconSemi" ++ lit ": "
    ++ format_data_for_js (series_of smm_data "topconSemi").

End RerunSpec.

(** A data set with a date that holds a backslash. *)
Definition backslash_data : gmap (list N) (list PricePoint) :=
  {[ lit "silver" := [ {| date := lit "2025-01-01" ++ [92; 113]; price := 10.5 |} ] ]}.

(** * Proofs: Fetcher *)

Section FetcherProofs.
Context {rt : PyRuntime}.

Lemma str_ltb_irrefl a : str_ltb a a = false.
Proof.
  induction a as [|x a IH]; [done|]. simpl.
  by rewrite N.ltb_irrefl.
Qed.

Lemma str_ltb_asym a b : str_ltb a b = true → str_ltb b a = false.
Proof.
  revert b. induction a as [|x a IH]; intros [|y b]; simpl; try done.
  destruct (N.ltb_spec x y) as [Hxy|Hxy].
  - intros _. destruct (N.ltb_spec y x); [lia|done].
  - destruct (N.ltb_spec y x); [done|]. apply IH.
Qed.

Lemma str_ltb_trans a b c :
  str_ltb a b = true → str_ltb b c = true → str_ltb a c = true.
Proof.
  revert b c. induction a as [|x a IH]; intros [|y b] [|z c]; simpl; try done.
  destruct (N.ltb_spec x y) as [Hxy|Hxy]; destruct (N.ltb_spec y z) as [Hyz|Hyz];
    destruct (N.ltb_spec x z) as [Hxz|Hxz]; try done; try lia;
    repeat match goal with
    | |- context [N.ltb ?u ?v] => destruct (N.ltb_spec u v); try lia; try done
    end.
  apply IH.
Qed.

Lemma str_ltb_total a b : str_ltb a b = false → str_ltb b a = false → a = b.
Proof.
  revert b. induction a as [|x a IH]; intros [|y b]; simpl; try done.
  destruct (N.ltb_spec x y); [done|]. destruct (N.ltb_spec y x); [done|].
  intros. f_equal; [lia|auto].
Qed.

Lemma str_le_refl a : str_le a a.
Proof. apply str_ltb_irrefl. Qed.

Lemma str_le_trans a b c : str_le a b → str_le b c → str_le a c.
Proof.
  unfold str_le. intros Hab Hbc.
  destruct (str_ltb c a) eqn:Hca; [|done].
  destruct (str_ltb c b) eqn:Hcb; [done|].
  destruct (str_ltb a b) eqn:Hab'.
  - by rewrite (str_ltb_trans _ _ _ Hca Hab') in Hcb.
  - rewrite (str_ltb_total _ _ Hab' Hab) in Hca. congruence.
Qed.

Lemma insert_by_date_perm p l : insert_by_date p l ≡ₚ p :: l.
Proof.
  induction l as [|q l IH]; simpl; [done|].
  destruct (str_ltb (date q) (date p)); [|done].
  rewrite IH. apply Permutation_swap.
Qed.

Lemma sorted_perm l : sorted l ≡ₚ l.
Proof.
  induction l as [|p l IH]; simpl; [done|].
  by rewrite insert_by_date_perm, IH.
Qed.

Lemma insert_by_date_sorted p l :
  StronglySorted date_le l → StronglySorted date_le (insert_by_date p l).
Proof.
  induction 1 as [|q l Hl IH Hq]; simpl.
  - repeat constructor.
  - destruct (str_ltb (date q) (date p)) eqn:Hqp.
    + constructor; [done|].
      rewrite insert_by_date_perm. constructor; [|done].
      by apply str_ltb_asym.
    + constructor; [by constructor|].
      constructor; [done|].
      eapply Forall_impl; [done|]. intros r Hr.
      by apply (str_le_trans _ (date q)).
Qed.

Lemma sorted_strongly_sorted l : StronglySorted date_le (sorted l).
Proof.
  induction l; simpl; [constructor|by apply insert_by_date_sorted].
Qed.

(** Stability: points with the same date keep their order. *)
Lemma insert_by_date_filter p l d :
  filter (λ q, date q = d) (insert_by_date p l)
  = filter (λ q, date q = d) (p :: l).
Proof.
  induction l as [|q l IH]; simpl; [done|].
  destruct (str_ltb (date q) (date p)) eqn:Hqp; [|done].
  rewrite filter_cons, IH, !filter_cons.
  destruct (decide (date q = d)) as [Hq|Hq]; [|done].
  destruct (decide (date p = d)) as [Hp|Hp]; [|done].
  rewrite Hq, Hp, str_ltb_irrefl in Hqp. done.
Qed.

Lemma sorted_stable l d :
  filter (λ q, date q = d) (sorted l) = filter (λ q, date q = d) l.
Proof.
  induction l as [|p l IH]; simpl; [done|].
  by rewrite insert_by_date_filter, !filter_cons, IH.
Qed.

Lemma conversion_error_Exception e : conversion_error e → is_Exception e = true.
Proof. by intros [->|[->| ->]]. Qed.

Lemma conversion_error_diagnostic e :
  conversion_error e → diagnostic e = MsgFetchError e.
Proof. by intros [->|[->| ->]]. Qed.

Lemma py_float_exn v e : py_float v = Raise e → conversion_error e.
Proof.
  unfold conversion_error.
  destruct v; simpl; try (intros [= <-]; auto).
  - unfold float_of_int. case_match; intros [= <-]; auto.
  - case_match; intros [= <-]; auto.
Qed.

Lemma row_price_exn r e : row_price r = Raise e → conversion_error e.
Proof.
  unfold row_price. repeat case_match; try done.
  destruct (py_float (low_price r)) eqn:Hl; simpl.
  - destruct (py_float (high_price r)) eqn:Hh; simpl; [done|].
    intros [= <-]. by eapply py_float_exn.
  - intros [= <-]. by eapply py_float_exn.
Qed.

Lemma fetch_rows_exn rows result e :
  fetch_rows rows result = Raise e → conversion_error e.
Proof.
  revert result. induction rows as [|r rows IH]; intros result; simpl; [done|].
  destruct (row_price r) as [price|e'] eqn:Hp; simpl.
  - case_match; simpl; [|by apply IH].
    destruct (py_float price) eqn:Hx; simpl; [by apply IH|].
    intros [= <-]. by eapply py_float_exn.
  - intros [= <-]. by eapply row_price_exn.
Qed.

(** The loop appends, to what it was given, the points of the records. *)
Lemma fetch_rows_app rows1 rows2 result :
  fetch_rows (rows1 ++ rows2) result
  = fetch_rows rows1 result ≫= fetch_rows rows2.
Proof.
  revert result. induction rows1 as [|r rows1 IH]; intros result; simpl; [done|].
  destruct (row_price r) as [price|]; simpl; [|done].
  case_match; simpl; [|apply IH].
  destruct (py_float price); simpl; [apply IH|done].
Qed.

Lemma fetch_rows_raise_app rows1 rows2 result e :
  fetch_rows rows1 result = Raise e →
  fetch_rows (rows1 ++ rows2) result = Raise e.
Proof. intros H. by rewrite fetch_rows_app, H. Qed.

Lemma row_price_point r price :
  row_price r = Ok price →
  record_point r =
    (if negb (bool_decide (row_get_date r = [])) && negb (is_None price)
     then match py_float price with
          | Ok x => Some {| date := row_get_date r; price := x |}
          | Raise _ => None
          end
     else None).
Proof.
  unfold row_price, record_point, row_get_date.
  destruct r as [rd avg low high]; simpl.
  destruct (is_None avg) eqn:Havg; simpl.
  - destruct (negb (is_None low) && negb (is_None high)) eqn:Hlh; simpl.
    + destruct (py_float low) as [l|]; simpl; [|done].
      destruct (py_float high) as [h|]; simpl; [|done].
      intros [= <-]. by destruct rd as [[|c d]|].
    + intros [= <-]. rewrite Havg. simpl. rewrite andb_false_r.
      by destruct rd as [[|c d]|].
  - intros [= <-]. rewrite Havg. simpl. rewrite andb_true_r.
    by destruct rd as [[|c d]|].
Qed.

Lemma fetch_rows_ok rows result out :
  fetch_rows rows result = Ok out → out = result ++ omap record_point rows.
Proof.
  revert result. induction rows as [|r rows IH]; intros result; simpl.
  - intros [= <-]. by rewrite app_nil_r.
  - destruct (row_price r) as [price|] eqn:Hp; simpl; [|done].
    rewrite (row_price_point _ _ Hp).
    destruct (negb (bool_decide (row_get_date r = [])) && negb (is_None price)); simpl.
    + destruct (py_float price) eqn:Hx; simpl; [|done].
      intros H. apply IH in H. by rewrite H, <-app_assoc.
    + apply IH.
Qed.

(** What a call leaves in the world and returns. *)
Lemma fetch_smm_data_value urlopen product_id start_date end_date w :
  (fetch_smm_data urlopen product_id start_date end_date w).2
  = fetch_series urlopen product_id start_date end_date.
Proof.
  unfold fetch_smm_data, fetch_series, try_except.
  destruct (urlopen _) as [e|status rows]; simpl.
  - by destruct e.
  - destruct (status_ok status); simpl; [|done].
    unfold mbind, M_bind, lift.
    destruct (fetch_rows rows []) as [result|e] eqn:Hrows; simpl; [done|].
    by destruct (fetch_rows_exn _ _ _ Hrows) as [->|[->| ->]].
Qed.

Lemma fetch_smm_data_files urlopen product_id start_date end_date w :
  files (fetch_smm_data urlopen product_id start_date end_date w).1 = files w.
Proof.
  unfold fetch_smm_data, try_except.
  destruct (urlopen _) as [e|status rows]; simpl.
  - by destruct e.
  - destruct (status_ok status); simpl; [|done].
    unfold mbind, M_bind, lift.
    destruct (fetch_rows rows []) as [result|e] eqn:Hrows; simpl; [done|].
    by destruct e.
Qed.

(** A call only prints. *)
Lemma fetch_smm_data_trace urlopen product_id start_date end_date w :
  ∃ ms, trace (fetch_smm_data urlopen product_id start_date end_date w).1
        = trace w ++ map Console ms.
Proof.
  unfold fetch_smm_data, try_except.
  destruct (urlopen _) as [e|status rows]; simpl.
  - destruct e; simpl;
      first [ by eexists [_] | by exists []; rewrite app_nil_r ].
  - destruct (status_ok status); simpl; [|by eexists [_]].
    unfold mbind, M_bind, lift.
    destruct (fetch_rows rows []) as [result|e] eqn:Hrows; simpl.
    + exists []. by rewrite app_nil_r.
    + destruct e; simpl;
        first [ by eexists [_] | by exists []; rewrite app_nil_r ].
Qed.

End FetcherProofs.

(** * Claims on the Fetcher *)

Section FetcherClaims.
Context {rt : PyRuntime}.

(** C7: when the request or the parsing of the response raises an
    exception (an HTTP status error, a URL error, or any other [Exception]),
    [fetch_smm_data] prints one diagnostic and returns the empty series;
    and whatever the response, no [Exception] leaves the call: a call that
    raises re-raises a [BaseException] the transport itself raised. *)
Theorem C7_transport_failure_gives_empty_series
    (urlopen : str → response) (product_id start_date end_date : str)
    (w : world) (e : exn) :
  urlopen (fetch_url product_id start_date end_date) = Raises e →
  is_Exception e = true →
  fetch_smm_data urlopen product_id start_date end_date w
    = (printed w (diagnostic e), Ok [])
  ∧ ∀ urlopen' w' e',
      (fetch_smm_data urlopen' product_id start_date end_date w').2 = Raise e' →
      is_Exception e' = false
      ∧ urlopen' (fetch_url product_id start_date end_date) = Raises e'.
Proof.
  intros Hresp He. split.
  - unfold fetch_smm_data, try_except. rewrite Hresp. simpl.
    by destruct e.
  - intros urlopen' w' e'. rewrite fetch_smm_data_value. unfold fetch_series.
    destruct (urlopen' _) as [e0|status rows].
    + destruct (is_Exception e0) eqn:He0; [done|]. by intros [= <-].
    + by repeat case_match.
Qed.

(** C8: for every provider response, in whatever order its rows come, the
    call returns a series, and the series is in non-decreasing order of its
    date strings (code-point order). *)
Theorem C8_series_sorted_by_date
    (urlopen : str → response) (product_id start_date end_date : str)
    (w : world) (status : option str) (rows : list row) :
  urlopen (fetch_url product_id start_date end_date) = Json status rows →
  ∃ series,
    (fetch_smm_data urlopen product_id start_date end_date w).2 = Ok series
    ∧ StronglySorted date_le series.
Proof.
  intros Hresp. rewrite fetch_smm_data_value. unfold fetch_series.
  rewrite Hresp.
  destruct (status_ok status); [|exists []; split; [done|constructor]].
  destruct (fetch_rows rows []) as [result|e].
  - exists (sorted result). split; [done|apply sorted_strongly_sorted].
  - exists []. split; [done|constructor].
Qed.

(** C5: in a response whose status is ok, the series is the sorted list of
    the records' points, where a record with a date gives a point priced at
    its average when it has one, else at [(low + high) / 2] when it has
    both, and gives no point when it has neither or has no date.  (When a
    conversion raises, the series is empty, so every point of a series is
    still some record's point.) *)
Theorem C5_record_prices
    (urlopen : str → response) (product_id start_date end_date : str)
    (w : world) (status : option str) (rows : list row) :
  urlopen (fetch_url product_id start_date end_date) = Json status rows →
  status_ok status = true →
  let series := (fetch_smm_data urlopen product_id start_date end_date w).2 in
  match fetch_rows rows [] with
  | Ok _ => series = Ok (sorted (omap record_point rows))
  | Raise _ => series = Ok []
  end
  ∧ (∀ ps p, series = Ok ps → p ∈ ps → ∃ r, r ∈ rows ∧ record_point r = Some p)
  ∧ (∀ r d x,
       row_date r = Some d → d ≠ [] →
       is_None (avg_price r) = false → py_float (avg_price r) = Ok x →
       record_point r = Some {| date := d; price := x |})
  ∧ (∀ r d l h,
       row_date r = Some d → d ≠ [] →
       is_None (avg_price r) = true →
       is_None (low_price r) = false → is_None (high_price r) = false →
       py_float (low_price r) = Ok l → py_float (high_price r) = Ok h →
       record_point r = Some {| date := d; price := ((l + h) / 2)%float |})
  ∧ (∀ r,
       row_get_date r = []
       ∨ (is_None (avg_price r) = true
          ∧ (is_None (low_price r) = true ∨ is_None (high_price r) = true)) →
       record_point r = None).
Proof.
  intros Hresp Hok series.
  assert (Hseries : series = match fetch_rows rows [] with
                             | Ok result => Ok (sorted result)
                             | Raise _ => Ok []
                             end).
  { unfold series. rewrite fetch_smm_data_value. unfold fetch_series.
    by rewrite Hresp, Hok. }
  split; [|split; [|split; [|split]]].
  - rewrite Hseries. destruct (fetch_rows rows []) as [result|e] eqn:Hrows; [|done].
    by rewrite (fetch_rows_ok _ _ _ Hrows).
  - intros ps p. rewrite Hseries.
    destruct (fetch_rows rows []) as [result|e] eqn:Hrows.
    + intros [= <-]. rewrite sorted_perm, (fetch_rows_ok _ _ _ Hrows). simpl.
      rewrite list_elem_of_omap. naive_solver.
    + intros [= <-]. by intros ?%elem_of_nil.
  - intros r d x Hd Hne Havg Hx. unfold record_point.
    rewrite Hd, Havg, Hx. by destruct d.
  - intros r d l h Hd Hne Havg Hlow Hhigh Hl Hh. unfold record_point.
    rewrite Hd, Havg, Hlow, Hhigh, Hl, Hh. by destruct d.
  - intros r [Hd|[Havg Hlh]]; unfold record_point.
    + unfold row_get_date in Hd. by destruct (row_date r) as [[|c d]|].
    + rewrite Havg. destruct (row_date r) as [[|c d]|]; try done. simpl.
      by destruct Hlh as [-> | ->]; rewrite ?andb_false_r.
Qed.

(** C10: a response with status ok in which one record has a date and an
    average price that is a string [float()] rejects yields the empty
    series, whatever the other records hold: the conversion error leaves
    the loop and is caught by the last handler, which prints it. *)
Theorem C10_one_bad_price_discards_all
    (urlopen : str → response) (product_id start_date end_date : str)
    (w : world) (status : option str) (rows1 rows2 : list row) (bad : row)
    (d s : str) :
  urlopen (fetch_url product_id start_date end_date)
    = Json status (rows1 ++ bad :: rows2) →
  status_ok status = true →
  row_date bad = Some d → d ≠ [] →
  avg_price bad = JStr s → float_of_str s = None →
  ∃ e, is_Exception e = true
       ∧ fetch_rows (rows1 ++ bad :: rows2) [] = Raise e
       ∧ fetch_smm_data urlopen product_id start_date end_date w
         = (printed w (MsgFetchError e), Ok []).
Proof.
  intros Hresp Hok Hd Hne Havg Hs.
  assert (Hbad : ∀ result, fetch_rows (bad :: rows2) result = Raise ValueError).
  { intros result. simpl. unfold row_price, row_get_date.
    rewrite Havg, Hd. simpl. rewrite Hs. simpl.
    by rewrite bool_decide_eq_false_2. }
  assert (∃ e, fetch_rows (rows1 ++ bad :: rows2) [] = Raise e) as [e He].
  { rewrite fetch_rows_app. destruct (fetch_rows rows1 []); simpl; eauto. }
  exists e. pose proof (fetch_rows_exn _ _ _ He) as Hexn.
  split; [by apply conversion_error_Exception|]. split; [done|].
  unfold fetch_smm_data, try_except. rewrite Hresp, Hok. simpl.
  unfold mbind, M_bind, lift. rewrite He.
  by destruct Hexn as [->|[->| ->]].
Qed.

End FetcherClaims.

(** Runs of the four theorems on a response of three records. *)

Lemma C7_witness :
  @fetch_smm_data example_runtime (λ _, Raises (HTTPError 404))
    (lit "202512220022") (lit "2024-09-20") (lit "2024-11-04") empty_world
  = (printed empty_world (MsgHTTPError 404), Ok []).
Proof.
  refine (proj1 (@C7_transport_failure_gives_empty_series example_runtime
                   (λ _, Raises (HTTPError 404)) _ _ _ empty_world
                   (HTTPError 404) _ _)); reflexivity.
Defined.

Lemma C8_witness :
  ∃ series,
    (@fetch_smm_data example_runtime (λ _, Json (Some (lit "ok")) sample_rows)
       (lit "202512220022") (lit "2024-09-20") (lit "2024-11-04")
       empty_world).2 = Ok series
    ∧ StronglySorted date_le series.
Proof.
  apply (@C8_series_sorted_by_date example_runtime
           (λ _, Json (Some (lit "ok")) sample_rows) _ _ _ empty_world
           (Some (lit "ok")) sample_rows).
  reflexivity.
Defined.

Lemma C5_witness :
  (@fetch_smm_data example_runtime (λ _, Json (Some (lit "ok")) sample_rows)
     (lit "202512220022") (lit "2024-09-20") (lit "2024-11-04")
     empty_world).2
  = Ok [ {| date := lit "2025-01-01"; price := 7.5 |};
         {| date := lit "2025-01-02"; price := 10.5 |} ].
Proof.
  pose proof (proj1 (@C5_record_prices example_runtime
                       (λ _, Json (Some (lit "ok")) sample_rows)
                       (lit "202512220022") (lit "2024-09-20")
                       (lit "2024-11-04") empty_world
                       (Some (lit "ok")) sample_rows eq_refl eq_refl)) as H.
  exact H.
Defined.

Lemma C10_witness :
  (@fetch_smm_data example_runtime
     (λ _, Json (Some (lit "ok")) (sample_rows ++ sample_bad_row :: []))
     (lit "202512220022") (lit "2024-09-20") (lit "2024-11-04")
     empty_world).2 = Ok []
  ∧ (@fetch_smm_data example_runtime (λ _, Json (Some (lit "ok")) sample_rows)
       (lit "202512220022") (lit "2024-09-20") (lit "2024-11-04")
       empty_world).2
    = Ok [ {| date := lit "2025-01-01"; price := 7.5 |};
           {| date := lit "2025-01-02"; price := 10.5 |} ].
Proof.
  split; [|reflexivity].
  destruct (@C10_one_bad_price_discards_all example_runtime
              (λ _, Json (Some (lit "ok")) (sample_rows ++ sample_bad_row :: []))
              (lit "202512220022") (lit "2024-09-20") (lit "2024-11-04")
              empty_world (Some (lit "ok")) sample_rows [] sample_bad_row
              (lit "2025-01-03") (lit "N/A")
              eq_refl eq_refl eq_refl ltac:(discriminate) eq_refl eq_refl)
    as (e & _ & _ & H).
  rewrite H. reflexivity.
Defined.

(** * Proofs: regular expressions *)

Section RegexProofs.
Context {rt : PyRuntime}.
Local Open Scope nat_scope.

Lemma starts_with_app a t : starts_with a (a ++ t) = true.
Proof. induction a as [|x a IH]; simpl; [done|]. by rewrite N.eqb_refl. Qed.

Lemma starts_with_inv a s : starts_with a s = true → s = a ++ drop (length a) s.
Proof.
  revert s. induction a as [|x a IH]; intros [|y s]; simpl; try done.
  intros [Hxy Has]%andb_true_iff. apply N.eqb_eq in Hxy as ->.
  f_equal. by apply IH.
Qed.

Lemma starts_with_length a s : starts_with a s = true → length a ≤ length s.
Proof.
  intros H%starts_with_inv. rewrite H, length_app. lia.
Qed.

Lemma find_bound a s i : find a s = Some i → i + length a ≤ length s.
Proof.
  revert i. induction s as [|c s IH]; intros i; simpl.
  - destruct (starts_with a []) eqn:Ha; [|done].
    intros [= <-]. apply starts_with_length in Ha. simpl in *. lia.
  - destruct (starts_with a (c :: s)) eqn:Ha.
    + intros [= <-]. apply starts_with_length in Ha. simpl in *. lia.
    + destruct (find a s) as [j|]; simpl; [|done].
      intros [= <-]. specialize (IH j eq_refl). lia.
Qed.

Lemma find_drop_None a s k : find a s = None → find a (drop k s) = None.
Proof.
  revert s. induction k as [|k IH]; intros s; [by rewrite drop_0|].
  destruct s as [|c s]; [done|]. simpl.
  destruct (starts_with a (c :: s)); [done|].
  destruct (find a s) eqn:Hf; [done|]. intros _. by apply IH.
Qed.

(** A match is never longer than the text. *)
Lemma match_here_le p s n : match_here p s = Some n → n ≤ length s.
Proof.
  revert s n. induction p as [|[c| |] p IH]; intros s n.
  - simpl. intros [= <-]. lia.
  - destruct s as [|x s]; simpl; [done|]. case_match; [|done].
    destruct (match_here p s) as [m|] eqn:Hm; simpl; [|done].
    intros [= <-]. apply IH in Hm. lia.
  - destruct s as [|x s]; simpl; [done|]. case_match; [|done].
    destruct (match_here p s) as [m|] eqn:Hm; simpl; [|done].
    intros [= <-]. apply IH in Hm. lia.
  - revert n. induction s as [|x s IHs]; intros n; simpl.
    + destruct (match_here p []) as [m|] eqn:Hm; [|done].
      intros [= <-]. by apply IH in Hm.
    + destruct (match_here p (x :: s)) as [m|] eqn:Hm.
      * intros [= <-]. by apply IH in Hm.
      * change ((fix scan (s0 : list N) : option nat :=
                   match match_here p s0 with
                   | Some n0 => Some n0
                   | None => match s0 with
                             | [] => None
                             | _ :: s' => S <$> scan s'
                             end
                   end) s) with (match_here (RLazyAny :: p) s).
        destruct (match_here (RLazyAny :: p) s) as [m|] eqn:Hm'; simpl; [|done].
        intros [= <-]. specialize (IHs m eq_refl). lia.
Qed.

(** The equation of [.*?]: try the rest of the pattern here, else one
    character further. *)
Lemma match_here_lazy p s :
  match_here (RLazyAny :: p) s
  = match match_here p s with
    | Some n => Some n
    | None =>
        match s with
        | [] => None
        | _ :: s' => S <$> match_here (RLazyAny :: p) s'
        end
    end.
Proof. by destruct s. Qed.

(** A literal in front of a pattern. *)
Lemma match_here_lit a p s :
  match_here (re_lit a ++ p) s
  = if starts_with a s
    then (λ n, length a + n) <$> match_here p (drop (length a) s)
    else None.
Proof.
  revert s. induction a as [|x a IH]; intros s; simpl.
  - rewrite drop_0. by destruct (match_here p s).
  - destruct s as [|y s]; [done|]. simpl.
    rewrite (N.eqb_sym y x). destruct (x =? y)%N; simpl; [|done].
    rewrite IH. destruct (starts_with a s); [|done].
    by destruct (match_here p (drop (length a) s)).
Qed.

(** [.*?] followed by a literal that ends the pattern: the first
    occurrence of the literal. *)
Lemma match_here_lazy_lit a s :
  match_here (RLazyAny :: re_lit a) s = (λ i, i + length a) <$> find a s.
Proof.
  induction s as [|c s IH]; rewrite match_here_lazy;
    rewrite <-(app_nil_r (re_lit a)) at 1; rewrite match_here_lit;
    cbn [find].
  - change (match_here [] (drop (length a) [])) with (Some 0).
    destruct (starts_with a []); [|done].
    cbn [fmap option_fmap option_map]. f_equal. lia.
  - change (match_here [] (drop (length a) (c :: s))) with (Some 0).
    destruct (starts_with a (c :: s)).
    + cbn [fmap option_fmap option_map]. f_equal. lia.
    + rewrite IH. by destruct (find a s).
Qed.

(** [.*?] followed by a literal and a rest that, once it fails, fails on
    every later suffix: the first occurrence of the literal decides. *)
Lemma match_here_lazy_lit_then a q s :
  (∀ t k, match_here q t = None → match_here q (drop k t) = None) →
  match_here (RLazyAny :: re_lit a ++ q) s
  = match find a s with
    | Some i => (λ n, i + length a + n) <$> match_here q (drop (i + length a) s)
    | None => None
    end.
Proof.
  intros Hmono.
  induction s as [|c s IH]; rewrite match_here_lazy, match_here_lit; cbn [find].
  - destruct (starts_with a []); [|done].
    change (0 + length a) with (length a).
    by destruct (match_here q (drop (length a) [])).
  - destruct (starts_with a (c :: s)) eqn:Ha.
    + change (0 + length a) with (length a).
      destruct (match_here q (drop (length a) (c :: s))) as [n|] eqn:Hq; [done|].
      cbn [fmap option_fmap option_map].
      rewrite IH. destruct (find a s) as [i|]; [|done].
      replace (drop (i + length a) s)
        with (drop (S i) (drop (length a) (c :: s))).
      { by rewrite (Hmono _ _ Hq). }
      rewrite drop_drop. by replace (length a + S i) with (S (i + length a)) by lia.
    + rewrite IH. destruct (find a s) as [i|]; [|done].
      cbn [fmap option_fmap option_map].
      change (drop (S i + length a) (c :: s)) with (drop (i + length a) s).
      by destruct (match_here q (drop (i + length a) s)).
Qed.

(** The block pattern, read as three searches. *)
Lemma match_here_pattern s : match_here pattern s = block_match s.
Proof.
  unfold pattern, block_match. rewrite match_here_lit.
  destruct (starts_with block_head s); [|done].
  set (s1 := drop (length block_head) s).
  change ([RLazyAny] ++ re_lit block_decl ++ [RLazyAny] ++ re_lit block_close)
    with (RLazyAny :: re_lit block_decl ++ RLazyAny :: re_lit block_close).
  rewrite match_here_lazy_lit_then.
  - destruct (find block_decl s1) as [i|]; [|done].
    rewrite match_here_lazy_lit.
    cbn [mbind option_bind].
    destruct (find block_close _) as [j|]; [|done].
    cbn [mbind option_bind fmap option_fmap option_map]. done.
  - intros t k. rewrite !match_here_lazy_lit.
    destruct (find block_close t) eqn:Hf; [done|].
    intros _. by rewrite find_drop_None.
Qed.

Lemma block_match_pos s n : block_match s = Some n → 0 < n.
Proof.
  unfold block_match. case_match; [|done].
  destruct (find block_decl _); [|done]. cbn [mbind option_bind].
  destruct (find block_close _); [|done]. cbn [mbind option_bind].
  intros [= <-]. change (length block_head) with 10. lia.
Qed.

(** ** [re.search] and the scan of [re.sub] *)

Lemma search_None p s :
  search p s = None ↔ ∀ i, match_here p (drop i s) = None.
Proof.
  induction s as [|c s IH]; simpl.
  - destruct (match_here p []) eqn:Hm.
    + split; [done|]. intros H. specialize (H 0). simpl in H. congruence.
    + split; [|done]. intros _ i. by rewrite drop_nil.
  - destruct (match_here p (c :: s)) eqn:Hm.
    + split; [done|]. intros H. specialize (H 0). simpl in H. congruence.
    + destruct (search p s) as [[i n]|] eqn:Hs; simpl.
      * split; [done|]. intros H.
        assert (∀ i, match_here p (drop i s) = None) as H'%IH; [|done].
        intros k. apply (H (S k)).
      * split; [|done]. intros _ [|i]; [done|]. simpl. by apply IH.
Qed.

Lemma search_Some p s i n :
  search p s = Some (i, n) ↔
  match_here p (drop i s) = Some n ∧ i ≤ length s
  ∧ ∀ j, j < i → match_here p (drop j s) = None.
Proof.
  revert i. induction s as [|c s IH]; intros i; simpl.
  - destruct (match_here p []) eqn:Hm.
    + split.
      * intros [= <- <-]. split; [done|]. split; [done|]. lia.
      * intros (H1 & H2 & _). rewrite drop_nil in H1.
        replace i with 0 by lia. congruence.
    + split; [done|]. intros (H1 & _). rewrite drop_nil in H1. congruence.
  - destruct (match_here p (c :: s)) eqn:Hm.
    + split.
      * intros [= <- <-]. split; [done|]. split; [lia|]. lia.
      * intros (H1 & H2 & H3). destruct i as [|i].
        -- simpl in H1. congruence.
        -- specialize (H3 0 ltac:(lia)). simpl in H3. congruence.
    + destruct (search p s) as [[k m]|] eqn:Hs; simpl.
      * split.
        -- intros [= <- <-]. destruct (proj1 (IH k) eq_refl) as (H1 & H2 & H3).
           split; [done|]. split; [lia|].
           intros [|j] Hj; [done|]. simpl. apply H3. lia.
        -- intros (H1 & H2 & H3). destruct i as [|i]; [simpl in H1; congruence|].
           simpl in H1.
           assert (Some (k, m) = Some (i, n)) as Hs'; [|congruence].
           apply IH. split; [done|]. split; [lia|].
           intros j Hj. apply (H3 (S j)). lia.
      * split; [done|]. intros (H1 & H2 & H3).
        destruct i as [|i]; [simpl in H1; congruence|]. simpl in H1.
        pose proof (proj1 (search_None p s) Hs i). congruence.
Qed.

Lemma sub_scan_skip p template k s :
  k ≤ length s → sub_scan p template k s = sub_scan p template 0 (drop k s).
Proof.
  revert k. induction s as [|c s IH]; intros [|k] Hk; simpl in *; try done; try lia.
  apply IH. lia.
Qed.

(** A gap before the next match is copied. *)
Lemma sub_scan_gap p template u x :
  (∀ i, i < length u → match_here p (drop i (u ++ x)) = None) →
  sub_scan p template 0 (u ++ x) = u ++ sub_scan p template 0 x.
Proof.
  induction u as [|c u IH]; intros H; [done|].
  rewrite <-app_comm_cons. cbn [sub_scan].
  pose proof (H 0 ltac:(simpl; lia)) as H0. simpl in H0.
  rewrite H0. simpl. f_equal. apply IH.
  intros i Hi. apply (H (S i)). simpl. lia.
Qed.

(** A match is replaced and the scan goes on behind it. *)
Lemma sub_scan_match p template m x :
  m ≠ [] →
  match_here p (m ++ x) = Some (length m) →
  sub_scan p template 0 (m ++ x) = template m ++ sub_scan p template 0 x.
Proof.
  destruct m as [|c m]; [done|]. intros _ Hm.
  rewrite <-app_comm_cons in *. cbn [sub_scan]. rewrite Hm. simpl.
  rewrite take_app_length. f_equal.
  rewrite sub_scan_skip by (rewrite length_app; lia).
  by rewrite drop_app_length.
Qed.

Lemma sub_scan_none p template s :
  search p s = None → sub_scan p template 0 s = s.
Proof.
  intros H. rewrite search_None in H.
  induction s as [|c s IH]; simpl.
  - pose proof (H 0) as H0. simpl in H0. by rewrite H0.
  - pose proof (H 0) as H0. simpl in H0. rewrite H0. f_equal.
    apply IH. intros i. apply (H (S i)).
Qed.

(** The scan replaces every match of a splitting and copies the rest. *)
Lemma sub_scan_splits p template s segs tail :
  splits p s segs tail →
  sub_scan p template 0 s
  = concat (map (λ seg, seg.1 ++ template seg.2) segs) ++ tail.
Proof.
  induction 1 as [tail Htail|gap m rest segs tail Hs Hm _ IH]; simpl.
  - by apply sub_scan_none.
  - apply search_Some in Hs as (H1 & H2 & H3).
    rewrite drop_app_length in H1.
    rewrite sub_scan_gap by done.
    rewrite sub_scan_match by done.
    by rewrite IH, <-!app_assoc.
Qed.

(** Every text has a splitting, when the pattern matches no empty text. *)
Lemma splits_exist p s :
  (∀ t n, match_here p t = Some n → 0 < n) →
  ∃ segs tail, splits p s segs tail.
Proof.
  intros Hpos. remember (length s) as k eqn:Hk. revert s Hk.
  induction k as [k IH] using lt_wf_ind. intros s ->.
  destruct (search p s) as [[i n]|] eqn:Hs.
  - pose proof Hs as (H1 & H2 & H3)%search_Some.
    pose proof (Hpos _ _ H1) as Hn.
    pose proof (match_here_le _ _ _ H1) as Hle. rewrite length_drop in Hle.
    destruct (IH (length (drop (i + n) s))
                ltac:(rewrite length_drop; lia) _ eq_refl)
      as (segs & tail & Hsp).
    exists ((take i s, take n (drop i s)) :: segs), tail.
    assert (s = take i s ++ take n (drop i s) ++ drop (i + n) s) as Heq.
    { rewrite <-drop_drop, !take_drop. done. }
    rewrite Heq at 1. constructor; [| |done].
    + rewrite <-Heq, !length_take, length_drop.
      rewrite Hs. do 2 f_equal; lia.
    + intros Hnil. apply (f_equal length) in Hnil.
      rewrite length_take, length_drop in Hnil. simpl in Hnil. lia.
  - exists [], s. by constructor.
Qed.

End RegexProofs.

(** * Proofs: the date-stamp pattern and the synthesized block *)

Section StampProofs.
Context {rt : PyRuntime} {laws : PyRuntimeLaws rt}.
Local Open Scope nat_scope.

Lemma match_here_stamp s :
  match_here stamp_pattern s = if is_stamp s then Some 18 else None.
Proof.
  unfold stamp_pattern, is_stamp. rewrite match_here_lit.
  destruct (starts_with stamp_label s); [|done].
  change (length stamp_label) with 8.
  destruct (drop 8 s) as [|y1 [|y2 [|y3 [|y4 [|h1 [|m1 [|m2 [|h2 [|d1 [|d2 r]]]]]]]]]];
    cbn; try done; repeat (case_match; cbn; try done).
Qed.

Lemma is_stamp_take s : is_stamp s = is_stamp (take 18 s).
Proof.
  do 18 (destruct s as [|? s]; [reflexivity|]). reflexivity.
Qed.

Lemma space_not_digit : unicode_digit 32%N = false.
Proof. by rewrite unicode_digit_ascii. Qed.

(** A pattern without [.*?] reads the text item by item. *)
Lemma match_here_fixed p s n :
  no_lazy p = true →
  match_here p s = Some n →
  ∀ k item, p !! k = Some item → ∃ c, s !! k = Some c ∧ accepts item c.
Proof.
  revert s n. induction p as [|[x| |] p IH]; intros s n Hp Hm k item Hk;
    [done| | |done].
  - destruct s as [|c s]; [done|]. simpl in Hm.
    destruct (c =? x)%N eqn:Hc; [|done].
    destruct (match_here p s) as [m|] eqn:Hm'; [|done].
    destruct k as [|k].
    + injection Hk as <-. exists c. split; [done|]. by apply N.eqb_eq.
    + by apply (IH s m).
  - destruct s as [|c s]; [done|]. simpl in Hm.
    destruct (unicode_digit c) eqn:Hc; [|done].
    destruct (match_here p s) as [m|] eqn:Hm'; [|done].
    destruct k as [|k].
    + injection Hk as <-. by exists c.
    + by apply (IH s m).
Qed.

Ltac stamp_clash Hitems Hlookup k :=
  let c := fresh "c" in
  let Hc := fresh "Hc" in
  let Hacc := fresh "Hacc" in
  destruct (Hitems k _ eq_refl) as (c & Hc & Hacc);
  rewrite Hlookup in Hc; injection Hc as <-; simpl in Hacc;
  first [ discriminate | by rewrite space_not_digit in Hacc ].

(** No stamp holds two spaces in a row. *)
Lemma is_stamp_spaces u v :
  length u < 18 → is_stamp (u ++ 32%N :: 32%N :: v) = false.
Proof.
  intros Hu. destruct (is_stamp _) eqn:Hs; [exfalso|done].
  assert (match_here stamp_pattern (u ++ 32%N :: 32%N :: v) = Some 18) as Hm
    by (by rewrite match_here_stamp, Hs).
  pose proof (match_here_fixed stamp_pattern _ _ eq_refl Hm) as Hitems.
  assert ((u ++ 32%N :: 32%N :: v) !! length u = Some 32%N) as H1.
  { by rewrite lookup_app_r, Nat.sub_diag by lia. }
  assert ((u ++ 32%N :: 32%N :: v) !! S (length u) = Some 32%N) as H2.
  { rewrite lookup_app_r by lia. by replace (S (length u) - length u) with 1 by lia. }
  remember (length u) as k eqn:Hk. clear Hk Hs Hm.
  do 18 (destruct k as [|k];
         [first [ stamp_clash Hitems H1 0 | stamp_clash Hitems H1 1
                | stamp_clash Hitems H1 2 | stamp_clash Hitems H1 3
                | stamp_clash Hitems H1 4 | stamp_clash Hitems H1 5
                | stamp_clash Hitems H1 6 | stamp_clash Hitems H2 8
                | stamp_clash Hitems H1 8 | stamp_clash Hitems H1 9
                | stamp_clash Hitems H1 10 | stamp_clash Hitems H1 11
                | stamp_clash Hitems H1 12 | stamp_clash Hitems H1 13
                | stamp_clash Hitems H1 14 | stamp_clash Hitems H1 15
                | stamp_clash Hitems H1 16 | stamp_clash Hitems H1 17 ]
         |]).
  lia.
Qed.

(** A stamp starts with the label. *)
Lemma is_stamp_head s :
  is_stamp s = true → ∃ t, s = 25968%N :: 25454%N :: 26356%N :: t.
Proof.
  unfold is_stamp. intros [H _]%andb_true_iff.
  apply starts_with_inv in H. rewrite H. by eexists.
Qed.

Lemma is_stamp_old t : is_stamp (old_stamp ++ t) = true.
Proof.
  unfold is_stamp. cbn.
  by rewrite !unicode_digit_ascii by done.
Qed.

Lemma match_here_old t : match_here stamp_pattern (old_stamp ++ t) = Some (length old_stamp).
Proof. by rewrite match_here_stamp, is_stamp_old. Qed.

(** A text that starts with two spaces adds no stamp to what precedes
    it. *)
Lemma is_stamp_before_spaces pre t i :
  i < length pre →
  is_stamp (drop i pre) = false →
  is_stamp (drop i (pre ++ 32%N :: 32%N :: t)) = false.
Proof.
  intros Hi Hpre. rewrite drop_app_le by lia.
  destruct (decide (18 ≤ length (drop i pre))) as [Hlen|Hlen].
  - rewrite is_stamp_take, take_app_le by done.
    by rewrite <-is_stamp_take.
  - apply is_stamp_spaces. lia.
Qed.

(** No stamp starts inside a text that lacks the label's third character
    and ends with a brace and a semicolon. *)
Lemma is_stamp_inside js0 x j :
  26356%N ∉ js0 ++ [125%N; 59%N] →
  j < length (js0 ++ [125%N; 59%N]) →
  is_stamp (drop j (js0 ++ [125%N; 59%N]) ++ x) = false.
Proof.
  intros Hnot Hj. destruct (is_stamp _) eqn:Hs; [|done].
  apply is_stamp_head in Hs as [t Ht].
  set (js := js0 ++ [125%N; 59%N]) in *.
  pose proof (take_drop j js) as Hsplit.
  destruct (drop j js) as [|c1 [|c2 [|c3 d]]] eqn:Hd.
  - apply (f_equal length) in Hd. rewrite length_drop in Hd. simpl in Hd. lia.
  - simpl in Ht. injection Ht as -> _.
    unfold js in Hsplit.
    change (js0 ++ [125%N; 59%N]) with (js0 ++ [125%N] ++ [59%N]) in Hsplit.
    rewrite app_assoc in Hsplit.
    apply app_inj_2 in Hsplit as [_ [=]]; done.
  - simpl in Ht. injection Ht as -> _.
    unfold js in Hsplit.
    apply app_inj_2 in Hsplit as [_ [=]]; done.
  - simpl in Ht. injection Ht as _ _ -> _.
    exfalso. apply Hnot. rewrite <-Hsplit.
    rewrite !elem_of_app, !elem_of_cons. auto.
Qed.

(** The characters of the synthesized block. *)
Lemma forallb_join (P : N → bool) sep parts :
  forallb P sep = true →
  Forall (λ s, forallb P s = true) parts →
  forallb P (join sep parts) = true.
Proof.
  intros Hsep. induction 1 as [|p parts Hp Hparts IH]; [done|].
  destruct parts as [|q parts]; [done|].
  change (join sep (p :: q :: parts)) with (p ++ sep ++ join sep (q :: parts)).
  by rewrite !forallb_app, Hp, Hsep, IH.
Qed.

Lemma plain_block_safe s : plain s → forallb block_safe_char s = true.
Proof.
  unfold plain. rewrite !forallb_forall. intros H c Hc.
  specialize (H c Hc). unfold plain_char, block_safe_char in *.
  apply andb_true_iff in H as [H1 H2]. rewrite H2. simpl.
  apply N.ltb_lt in H1. apply negb_true_iff, N.eqb_neq. lia.
Qed.

Lemma format_item_safe p :
  plain (date p) → forallb block_safe_char (format_item p) = true.
Proof.
  intros Hp. unfold format_item. rewrite !forallb_app.
  rewrite (plain_block_safe _ Hp).
  rewrite (plain_block_safe _ (float_repr_plain (price p))).
  reflexivity.
Qed.

Lemma chunks_Forall (P : str → Prop) items :
  Forall P items → Forall (Forall P) (chunks items).
Proof.
  intros H. unfold chunks. apply Forall_fmap, Forall_forall. intros k _.
  simpl. by apply Forall_take, Forall_drop.
Qed.

Lemma format_data_for_js_safe data :
  Forall (λ p, plain (date p)) data →
  forallb block_safe_char (format_data_for_js data) = true.
Proof.
  intros H. destruct data as [|p data]; [reflexivity|].
  unfold format_data_for_js. set (ps := p :: data) in *.
  rewrite !forallb_app.
  apply andb_true_intro; split; [reflexivity|].
  apply andb_true_intro; split; [|reflexivity].
  apply forallb_join; [reflexivity|].
  apply Forall_fmap.
  eapply Forall_impl; [apply (chunks_Forall (λ s, forallb block_safe_char s = true))|].
  - apply Forall_fmap. eapply Forall_impl; [exact H|].
    intros q Hq. by apply format_item_safe.
  - intros chunk Hchunk. unfold compose. rewrite forallb_app.
    apply andb_true_intro; split; [reflexivity|].
    by apply forallb_join.
Qed.

Lemma field_safe smm_data key last :
  forallb block_safe_char (lit key) = true →
  dataset_plain smm_data →
  forallb block_safe_char (field smm_data key last) = true.
Proof.
  intros Hkey Hd. unfold field. rewrite !forallb_app.
  rewrite format_data_for_js_safe, Hkey.
  - destruct last; reflexivity.
  - unfold series_of. destruct (smm_data !! lit key) as [series|] eqn:Hk; [|done].
    apply Forall_forall. intros p Hp. by eapply Hd.
Qed.

Lemma smm_data_js_safe smm_data update_date :
  dataset_plain smm_data → plain update_date →
  forallb block_safe_char (smm_data_js smm_data update_date) = true.
Proof.
  intros Hd Hu. unfold smm_data_js.
  rewrite !forallb_app, !field_safe by first [reflexivity | done].
  rewrite (plain_block_safe _ Hu). reflexivity.
Qed.

Lemma block_safe_no_backslash s :
  forallb block_safe_char s = true → has_backslash s = false.
Proof.
  intros H. unfold has_backslash.
  apply not_true_iff_false. intros [c [Hc Hc']]%existsb_exists.
  rewrite forallb_forall in H. specialize (H c Hc).
  unfold block_safe_char in H. by rewrite Hc' in H.
Qed.

Lemma block_safe_no_label s :
  forallb block_safe_char s = true → 26356%N ∉ s.
Proof.
  intros H Hin. rewrite forallb_forall in H.
  specialize (H _ (proj1 (list_elem_of_In _ _) Hin)). done.
Qed.

(** The block starts with two spaces and ends with [};]. *)
Lemma block_indent_head :
  lit "        // SMM真实数据 (" = 32%N :: 32%N :: lit "      // SMM真实数据 (".
Proof. vm_compute. reflexivity. Qed.

Lemma smm_data_js_head smm_data update_date :
  ∃ t, smm_data_js smm_data update_date = 32%N :: 32%N :: t.
Proof.
  unfold smm_data_js. rewrite block_indent_head, <-!app_comm_cons. by eexists.
Qed.

Lemma ends_app (a b z : str) : (∃ t, b = t ++ z) → ∃ t, a ++ b = t ++ z.
Proof. intros [t ->]. exists (a ++ t). by rewrite app_assoc. Qed.

Lemma smm_data_js_tail smm_data update_date :
  ∃ t, smm_data_js smm_data update_date = t ++ [125%N; 59%N].
Proof.
  unfold smm_data_js. do 24 apply ends_app.
  exists (lit "        "). vm_compute. reflexivity.
Qed.

End StampProofs.

(** * Proofs: Document Updater *)

Section UpdaterProofs.
Context {rt : PyRuntime} {laws : PyRuntimeLaws rt}.
Local Open Scope nat_scope.

(** [re.sub] with a replacement that holds no backslash. *)
Lemma re_sub_literal p repl s :
  has_backslash repl = false →
  re_sub p repl s = Ok (sub_scan p (λ _, repl) 0 s).
Proof. intros H. unfold re_sub, prepare_template. by rewrite H. Qed.

Lemma re_sub_splits p repl s segs tail :
  has_backslash repl = false →
  splits p s segs tail →
  re_sub p repl s = Ok (replaced repl segs tail).
Proof.
  intros H Hs. rewrite re_sub_literal by done.
  by rewrite (sub_scan_splits _ _ _ _ _ Hs).
Qed.

Lemma plain_app a b : plain a → plain b → plain (a ++ b).
Proof. unfold plain. rewrite forallb_app. by intros -> ->. Qed.

Lemma plain_no_backslash s : plain s → has_backslash s = false.
Proof. intros H. by apply block_safe_no_backslash, plain_block_safe. Qed.

Lemma stamp_repl_literal update_date :
  plain update_date → has_backslash (stamp_label ++ update_date) = false.
Proof.
  intros H. unfold has_backslash. rewrite existsb_app.
  change (existsb (λ c, (c =? 92)%N) update_date) with (has_backslash update_date).
  by rewrite (plain_no_backslash _ H).
Qed.

Lemma smm_data_js_literal smm_data update_date :
  dataset_plain smm_data → plain update_date →
  has_backslash (smm_data_js smm_data update_date) = false.
Proof. intros. by apply block_safe_no_backslash, smm_data_js_safe. Qed.

(** No stamp starts inside the synthesized block. *)
Lemma is_stamp_in_block smm_data update_date x j :
  dataset_plain smm_data → plain update_date →
  j < length (smm_data_js smm_data update_date) →
  is_stamp (drop j (smm_data_js smm_data update_date) ++ x) = false.
Proof.
  intros Hd Hu Hj.
  pose proof (block_safe_no_label _ (smm_data_js_safe _ _ Hd Hu)) as Hnot.
  destruct (smm_data_js_tail smm_data update_date) as [js0 Hjs].
  rewrite Hjs in *. by apply is_stamp_inside.
Qed.

(** The stamp pattern finds nothing in [u ++ js ++ v] when it finds
    nothing in [u] and in [v] and [js] is the synthesized block. *)
Lemma stamp_free_around_block smm_data update_date u v i :
  dataset_plain smm_data → plain update_date →
  (∀ k, is_stamp (drop k u) = false) →
  (∀ k, is_stamp (drop k v) = false) →
  is_stamp (drop i (u ++ smm_data_js smm_data update_date ++ v)) = false.
Proof.
  intros Hd Hu Hpre Hpost.
  set (js := smm_data_js smm_data update_date).
  destruct (decide (i < length u)) as [Hi|Hi].
  - destruct (smm_data_js_head smm_data update_date) as [t Ht].
    fold js in Ht. rewrite Ht. rewrite <-!app_comm_cons.
    by apply is_stamp_before_spaces.
  - rewrite drop_app_ge by lia.
    destruct (decide (i - length u < length js)) as [Hj|Hj].
    + rewrite drop_app_le by lia. by apply is_stamp_in_block.
    + rewrite drop_app_ge by lia. apply Hpost.
Qed.

Lemma search_stamp_None s :
  search stamp_pattern s = None ↔ ∀ k, is_stamp (drop k s) = false.
Proof.
  rewrite search_None. split; intros H k; specialize (H k);
    rewrite match_here_stamp in *; by destruct (is_stamp _).
Qed.

Lemma search_stamp_before s i n k :
  search stamp_pattern s = Some (i, n) → k < i → is_stamp (drop k s) = false.
Proof.
  intros (_ & _ & H)%search_Some Hk. specialize (H k Hk).
  rewrite match_here_stamp in H. by destruct (is_stamp _).
Qed.

(** The stamp pass when the only stamp stands before the block. *)
Lemma stamp_pass_before smm_data update_date repl a b c :
  dataset_plain smm_data → plain update_date →
  splits stamp_pattern (a ++ old_stamp ++ b) [(a, old_stamp)] b →
  search stamp_pattern c = None →
  sub_scan stamp_pattern (λ _, repl) 0
    (a ++ old_stamp ++ b ++ smm_data_js smm_data update_date ++ c)
  = a ++ repl ++ b ++ smm_data_js smm_data update_date ++ c.
Proof.
  intros Hd Hu Hsp Hc.
  set (js := smm_data_js smm_data update_date).
  inversion Hsp as [|gap m rest segs tail Hs _ Hrest Hgap Hsegs]; subst.
  apply app_inv_head in Hgap as Hgap'.
  inversion Hrest as [tail Hb|]; subst.
  rewrite search_stamp_None in Hb, Hc.
  rewrite sub_scan_gap.
  - f_equal. rewrite sub_scan_match; [|done|apply match_here_old].
    f_equal. apply sub_scan_none, search_stamp_None.
    intros k. by apply stamp_free_around_block.
  - intros i Hi. rewrite match_here_stamp.
    pose proof (search_stamp_before _ _ _ _ Hs Hi) as Hno.
    replace (a ++ old_stamp ++ b ++ js ++ c)
      with ((a ++ old_stamp ++ b) ++ js ++ c) by (by rewrite <-!app_assoc).
    destruct (smm_data_js_head smm_data update_date) as [t Ht].
    fold js in Ht. rewrite Ht, <-!app_comm_cons.
    rewrite is_stamp_before_spaces; [done| |done].
    rewrite length_app. lia.
Qed.

(** The stamp pass when the only stamp stands behind the block. *)
Lemma stamp_pass_after smm_data update_date repl a b c :
  dataset_plain smm_data → plain update_date →
  search stamp_pattern a = None →
  splits stamp_pattern (b ++ old_stamp ++ c) [(b, old_stamp)] c →
  sub_scan stamp_pattern (λ _, repl) 0
    (a ++ smm_data_js smm_data update_date ++ b ++ old_stamp ++ c)
  = a ++ smm_data_js smm_data update_date ++ b ++ repl ++ c.
Proof.
  intros Hd Hu Ha Hsp.
  set (js := smm_data_js smm_data update_date).
  inversion Hsp as [|gap m rest segs tail Hs _ Hrest Hgap Hsegs]; subst.
  inversion Hrest as [tail Hc|]; subst.
  rewrite search_stamp_None in Ha.
  replace (a ++ js ++ b ++ old_stamp ++ c)
    with ((a ++ js ++ b) ++ old_stamp ++ c) by (by rewrite <-!app_assoc).
  rewrite sub_scan_gap.
  - rewrite sub_scan_match; [|done|apply match_here_old].
    rewrite sub_scan_none by done. by rewrite <-!app_assoc.
  - intros i Hi. rewrite match_here_stamp.
    replace ((a ++ js ++ b) ++ old_stamp ++ c)
      with (a ++ js ++ (b ++ old_stamp ++ c)) by (by rewrite <-!app_assoc).
    destruct (decide (i < length a)) as [Hia|Hia].
    + destruct (smm_data_js_head smm_data update_date) as [t Ht].
      fold js in Ht. rewrite Ht, <-!app_comm_cons.
      by rewrite is_stamp_before_spaces.
    + rewrite drop_app_ge by lia.
      destruct (decide (i - length a < length js)) as [Hj|Hj].
      * rewrite drop_app_le by lia. unfold js in *.
        by rewrite is_stamp_in_block.
      * rewrite drop_app_ge by lia.
        rewrite (search_stamp_before _ _ _ _ Hs); [done|].
        rewrite !length_app in Hi. lia.
Qed.

(** The two substitutions, on a text cut by the block pattern. *)
Lemma update_html_text_splits smm_data update_date content segs tail :
  dataset_plain smm_data → plain update_date →
  splits pattern content segs tail →
  update_html_text smm_data update_date content
  = Ok (sub_scan stamp_pattern (λ _, stamp_label ++ update_date) 0
          (replaced (smm_data_js smm_data update_date) segs tail)).
Proof.
  intros Hd Hu Hsp. unfold update_html_text.
  rewrite (re_sub_splits _ _ _ _ _ (smm_data_js_literal _ _ Hd Hu) Hsp).
  unfold mbind, outcome_bind.
  by rewrite re_sub_literal by (by apply stamp_repl_literal).
Qed.

Lemma new_stamp_eq : stamp_label ++ lit "2024-06-01" = new_stamp.
Proof. vm_compute. reflexivity. Qed.

(** What [update_html_file] does to the world once the text is known. *)
Lemma update_html_file_run path smm_data update_date w content new_content :
  files w !! path = Some content →
  update_html_text smm_data update_date content = Ok new_content →
  update_html_file path smm_data update_date w
  = ({| trace := trace w ++ [FileRead path; FileWrite path new_content;
                             Console (MsgHtmlUpdated path)];
        files := <[path := new_content]> (files w) |}, Ok ()).
Proof.
  intros Hf Ht. unfold update_html_file, read_file, write_file, print, emit, lift.
  unfold mbind, M_bind. simpl. rewrite Hf, Ht. simpl.
  by rewrite <-!app_assoc.
Qed.

Lemma update_html_file_raise path smm_data update_date w content e :
  files w !! path = Some content →
  update_html_text smm_data update_date content = Raise e →
  update_html_file path smm_data update_date w
  = ({| trace := trace w ++ [FileRead path]; files := files w |}, Raise e).
Proof.
  intros Hf Ht. unfold update_html_file, read_file, lift.
  unfold mbind, M_bind. simpl. by rewrite Hf, Ht.
Qed.

End UpdaterProofs.

(** * Claims on the Document Updater *)

Section UpdaterClaims.
Context {rt : PyRuntime} {laws : PyRuntimeLaws rt}.




End UpdaterClaims.

(** * The executable runtime obeys the laws *)

Lemma decimal_go_plain fuel n acc :
  forallb plain_char acc = true →
  forallb plain_char (Exec.decimal_go fuel n acc) = true.
Proof.
  revert n acc. induction fuel as [|fuel IH]; intros n acc Hacc; simpl; [done|].
  assert (forallb plain_char ((48 + n mod 10)%N :: acc) = true) as H.
  { simpl. rewrite Hacc, andb_true_r. unfold plain_char.
    pose proof (N.mod_upper_bound n 10 ltac:(done)).
    apply andb_true_intro; split.
    - apply N.ltb_lt. lia.
    - apply negb_true_iff, N.eqb_neq. lia. }
  case_match; [done|by apply IH].
Qed.

Lemma decimal_plain n : forallb plain_char (Exec.decimal n) = true.
Proof. by apply decimal_go_plain. Qed.

Lemma forallb_plain_Forall s :
  forallb plain_char s = true ↔ Forall (λ c, plain_char c = true) s.
Proof.
  rewrite forallb_forall, Forall_forall. by setoid_rewrite list_elem_of_In.
Qed.

Lemma strip_zeros_rev_plain s :
  Forall (λ c, plain_char c = true) s →
  Forall (λ c, plain_char c = true) (Exec.strip_zeros_rev s).
Proof.
  induction 1 as [|c s Hc Hs IH]; simpl; [done|].
  repeat case_match; try done; by constructor.
Qed.

Lemma example_float_repr_plain x : forallb plain_char (Exec.float_repr x) = true.
Proof.
  unfold Exec.float_repr. destruct (Prim2SF x) as [[]|[]| |s m e]; try reflexivity.
  assert (forallb plain_char (if s then [45%N] else []) = true) as Hsign
    by (by destruct s).
  destruct e as [|e|k].
  - by rewrite !forallb_app, Hsign, decimal_plain.
  - by rewrite !forallb_app, Hsign, decimal_plain.
  - set (ds := Exec.pad_left _ _).
    assert (Forall (λ c, plain_char c = true) ds) as Hds.
    { unfold ds, Exec.pad_left. apply Forall_app. split.
      - by apply Forall_replicate.
      - apply forallb_plain_Forall, decimal_plain. }
    rewrite !forallb_app, Hsign. simpl.
    apply andb_true_intro; split.
    + by apply forallb_plain_Forall, Forall_take.
    + set (fp := Exec.strip_trailing_zeros _).
      assert (Forall (λ c, plain_char c = true) fp) as Hfp.
      { unfold fp, Exec.strip_trailing_zeros.
        by apply Forall_rev, strip_zeros_rev_plain, Forall_rev, Forall_drop. }
      destruct fp; [done|]. by apply forallb_plain_Forall.
Qed.

#[export] Instance example_runtime_laws : PyRuntimeLaws example_runtime.
Proof.
  split.
  - done.
  - apply example_float_repr_plain.
Qed.

(** * Runs of the Document Updater *)

Lemma dataset_plain_empty : dataset_plain ∅.
Proof. intros k series p Hk. by rewrite lookup_empty in Hk. Qed.

Lemma dataset_plain_sample : dataset_plain sample_data.
Proof.
  intros k series p Hk Hp. unfold sample_data in Hk.
  apply lookup_singleton_Some in Hk as [_ <-].
  repeat (apply elem_of_cons in Hp as [->|Hp]; [reflexivity|]).
  by apply elem_of_nil in Hp.
Qed.

Lemma not_nil_by_length (s : str) : (0 <? length s)%nat = true → s ≠ [].
Proof. by destruct s. Qed.






(** * Proofs: Orchestrator *)

Section OrchestratorProofs.
Context {rt : PyRuntime}.

Lemma fetch_product_value urlopen sd ed cd key pid w :
  (fetch_product urlopen sd ed cd key pid w).2
  = product_series urlopen sd ed cd key pid.
Proof.
  unfold fetch_product, product_series.
  case_bool_decide; apply fetch_smm_data_value.
Qed.

Lemma fetch_product_files urlopen sd ed cd key pid w :
  files (fetch_product urlopen sd ed cd key pid w).1 = files w.
Proof. unfold fetch_product. case_bool_decide; apply fetch_smm_data_files. Qed.

Lemma fetch_product_trace urlopen sd ed cd key pid w :
  ∃ ms, trace (fetch_product urlopen sd ed cd key pid w).1
        = trace w ++ map Console ms.
Proof. unfold fetch_product. case_bool_decide; apply fetch_smm_data_trace. Qed.

(** One iteration of the fetch loop, by the value the fetch returned. *)
Lemma fetch_pass_step urlopen sd ed cd key pid products smm_data w :
  fetch_pass urlopen sd ed cd ((key, pid) :: products) smm_data w
  = let w0 := printed w (MsgFetching (dict_get PRODUCT_NAMES key key) pid) in
    let r := fetch_product urlopen sd ed cd key pid w0 in
    match r.2 with
    | Raise e => (r.1, Raise e)
    | Ok [] =>
        fetch_pass urlopen sd ed cd products smm_data (printed r.1 MsgFetchFail)
    | Ok (p :: data) =>
        fetch_pass urlopen sd ed cd products (<[key := p :: data]> smm_data)
          (printed r.1
             (MsgFetchOk (length (p :: data)) (default p (last (p :: data)))))
    end.
Proof.
  cbn [fetch_pass]. unfold mbind, M_bind, print, emit, printed. cbn beta iota.
  destruct (fetch_product _ _ _ _ _ _ _) as [w1 [[|p data]|e]]; cbn; try done.
  unfold lift, py_last.
  destruct (last (p :: data)) as [q|] eqn:Hlast; cbn; [done|].
  by apply last_None in Hlast.
Qed.

(** The loop keeps the files and only prints. *)
Lemma fetch_pass_frame urlopen sd ed cd products smm_data w :
  files (fetch_pass urlopen sd ed cd products smm_data w).1 = files w
  ∧ ∃ ms, trace (fetch_pass urlopen sd ed cd products smm_data w).1
          = trace w ++ map Console ms.
Proof.
  revert smm_data w. induction products as [|[key pid] products IH];
    intros smm_data w.
  - split; [done|]. exists []. by rewrite app_nil_r.
  - rewrite fetch_pass_step. cbn zeta.
    set (w0 := printed w _).
    pose proof (fetch_product_files urlopen sd ed cd key pid w0) as Hf.
    destruct (fetch_product_trace urlopen sd ed cd key pid w0) as [ms Ht].
    destruct (fetch_product urlopen sd ed cd key pid w0) as [w1 [[|p data]|e]];
      cbn [fst snd] in *.
    + destruct (IH smm_data (printed w1 MsgFetchFail)) as [IHf [ms' IHt]].
      split; [by rewrite IHf|].
      exists (MsgFetching (dict_get PRODUCT_NAMES key key) pid
                :: ms ++ MsgFetchFail :: ms').
      rewrite IHt. cbn. rewrite Ht. cbn.
      rewrite !map_app. cbn. by rewrite <-!app_assoc.
    + destruct (IH (<[key:=p :: data]> smm_data)
                  (printed w1 (MsgFetchOk (length (p :: data))
                                 (default p (last (p :: data))))))
        as [IHf [ms' IHt]].
      split; [by rewrite IHf|].
      eexists (MsgFetching (dict_get PRODUCT_NAMES key key) pid
                 :: ms ++ _ :: ms').
      rewrite IHt. cbn. rewrite Ht. cbn.
      rewrite !map_app. cbn. by rewrite <-!app_assoc.
    + split; [done|].
      exists (MsgFetching (dict_get PRODUCT_NAMES key key) pid :: ms).
      rewrite Ht. cbn. by rewrite <-!app_assoc.
Qed.

(** The entries the loop leaves: a key gets an entry exactly when its
    fetch returned a non-empty series. *)
Lemma fetch_pass_entries urlopen sd ed cd products :
  NoDup products.*1 →
  ∀ smm_data w w' smm_data',
    fetch_pass urlopen sd ed cd products smm_data w = (w', Ok smm_data') →
    (∀ key, key ∉ products.*1 → smm_data' !! key = smm_data !! key)
    ∧ (∀ key pid, (key, pid) ∈ products →
         ∃ data, product_series urlopen sd ed cd key pid = Ok data
                 ∧ smm_data' !! key
                   = match data with
                     | [] => smm_data !! key
                     | _ :: _ => Some data
                     end).
Proof.
  induction products as [|[key0 pid0] products IH]; intros Hnd smm_data w w' m.
  - cbn. intros [= <- <-]. split; [done|]. by intros key pid ?%elem_of_nil.
  - apply NoDup_cons in Hnd as [Hkey0 Hnd]. specialize (IH Hnd).
    rewrite fetch_pass_step. cbn zeta.
    set (w0 := printed w _).
    pose proof (fetch_product_value urlopen sd ed cd key0 pid0 w0) as Hv.
    destruct (fetch_product urlopen sd ed cd key0 pid0 w0) as [w1 r];
      cbn [fst snd] in *. subst r.
    destruct (product_series urlopen sd ed cd key0 pid0)
      as [[|p data]|e] eqn:Hseries; [| |done].
    + intros Hrest. destruct (IH _ _ _ _ Hrest) as [IH1 IH2]. split.
      * intros key Hkey. apply IH1. cbn in Hkey.
        rewrite not_elem_of_cons in Hkey. tauto.
      * intros key pid [[= -> ->]|Hin]%elem_of_cons.
        -- exists []. split; [done|]. by apply IH1.
        -- by apply IH2.
    + intros Hrest. destruct (IH _ _ _ _ Hrest) as [IH1 IH2]. split.
      * intros key Hkey. cbn in Hkey. rewrite not_elem_of_cons in Hkey.
        rewrite IH1 by tauto. rewrite lookup_insert_ne by (intros ->; tauto).
        done.
      * intros key pid [[= -> ->]|Hin]%elem_of_cons.
        -- exists (p :: data). split; [done|].
           by rewrite IH1, lookup_insert_eq.
        -- destruct (IH2 key pid Hin) as (data' & Hd & Hm).
           exists data'. split; [done|]. rewrite Hm.
           destruct data'; [|done].
           apply lookup_insert_ne. intros ->. apply Hkey0.
           apply list_elem_of_fmap. by exists (key, pid).
Qed.

(** The loop completes when no fetch re-raises. *)
Lemma fetch_pass_completes urlopen sd ed cd products smm_data w :
  (∀ key pid, (key, pid) ∈ products →
     ∃ data, product_series urlopen sd ed cd key pid = Ok data) →
  ∃ w' smm_data',
    fetch_pass urlopen sd ed cd products smm_data w = (w', Ok smm_data').
Proof.
  revert smm_data w. induction products as [|[key pid] products IH];
    intros smm_data w Hall.
  - by eexists _, _.
  - rewrite fetch_pass_step. cbn zeta.
    set (w0 := printed w _).
    pose proof (fetch_product_value urlopen sd ed cd key pid w0) as Hv.
    destruct (fetch_product urlopen sd ed cd key pid w0) as [w1 r];
      cbn [fst snd] in *. subst r.
    destruct (Hall key pid ltac:(by left)) as [data ->].
    destruct data; apply IH; intros k q Hin; apply Hall; by right.
Qed.

Lemma fetch_series_total urlopen pid sd ed :
  (∀ url e, urlopen url = Raises e → is_Exception e = true) →
  ∃ data, fetch_series urlopen pid sd ed = Ok data.
Proof.
  intros H. unfold fetch_series.
  destruct (urlopen _) as [e|status rows] eqn:Hr.
  - rewrite (H _ _ Hr). by eexists.
  - repeat case_match; by eexists.
Qed.

Lemma product_series_total urlopen sd ed cd key pid :
  (∀ url e, urlopen url = Raises e → is_Exception e = true) →
  ∃ data, product_series urlopen sd ed cd key pid = Ok data.
Proof.
  intros H. unfold product_series. case_bool_decide; by apply fetch_series_total.
Qed.

Lemma SMM_PRODUCTS_NoDup : NoDup SMM_PRODUCTS.*1.
Proof. apply (bool_decide_unpack _). vm_compute. exact I. Qed.

End OrchestratorProofs.

(** * Claims on the Orchestrator *)

Section OrchestratorClaims.
Context {rt : PyRuntime}.

(** [main] is its fetch phase followed by the validation and the update. *)
Lemma main_after_fetch urlopen today w :
  main urlopen today w
  = match fetch_phase urlopen today w with
    | (w1, Raise e) => (w1, Raise e)
    | (w1, Ok smm_data) =>
        let w2 := printed w1 MsgRule in
        match List.filter (is_missing smm_data) required_keys with
        | (_ :: _) as missing =>
            (printed (printed w2 (MsgMissing missing)) MsgCheckNetwork,
             Raise (SystemExit 1))
        | [] =>
            try_except
              (update_html_file html_path smm_data (strftime_ymd today);;
               print MsgAllDone;;
               print MsgSummaryHeader;;
               print MsgDash40;;
               print_summary smm_data summary_keys)
              (λ e,
                 if is_Exception e then
                   print (MsgUpdateFailed e);;
                   raise (SystemExit 1)
                 else raise e) w2
        end
    end.
Proof.
  cbv beta iota zeta delta [main fetch_phase mbind M_bind print emit printed raise].
  destruct (fetch_pass _ _ _ _ _ _ _) as [w1 [smm_data|e]]; [|done].
  by destruct (List.filter (is_missing smm_data) required_keys).
Qed.

Lemma fetch_phase_frame urlopen today w :
  files (fetch_phase urlopen today w).1 = files w
  ∧ ∃ ms, trace (fetch_phase urlopen today w).1 = trace w ++ map Console ms.
Proof.
  unfold fetch_phase, mbind, M_bind, print, emit. cbn beta iota.
  match goal with
  | |- context [fetch_pass ?u ?a ?b ?c ?ps ?m ?w0] =>
      destruct (fetch_pass_frame u a b c ps m w0) as [Hf [ms Ht]]
  end.
  split; [by rewrite Hf|].
  eexists (_ :: _ :: _ :: _ :: _ :: _ :: ms). rewrite Ht. cbn.
  by rewrite <-!app_assoc.
Qed.

(** C1 (as amended): after the fetch pass, the data set has an entry for a
    product key of the registry exactly when the fetch for that product
    returned a non-empty series, and the entry is that series; a product
    whose fetch failed or gave no usable record has no entry (it is absent,
    not empty), so reading it with the default gives the empty series.
    The pass completes whenever the transport raises nothing but
    [Exception]s, and it adds no key outside the registry. *)
Theorem C1_failed_fetch_leaves_key_absent
    (urlopen : str → response) (today : Z) (w : world) :
  (∀ url e, urlopen url = Raises e → is_Exception e = true) →
  ∃ w1 smm_data,
    fetch_phase urlopen today w = (w1, Ok smm_data)
    ∧ (∀ key product_id, (key, product_id) ∈ SMM_PRODUCTS →
         ∃ data,
           product_series urlopen (strftime_ymd (today - 45))
             (strftime_ymd today) (strftime_ymd (today - 90)) key product_id
           = Ok data
           ∧ smm_data !! key = entry_of data
           ∧ default [] (smm_data !! key) = data
           ∧ (smm_data !! key = None ↔ data = []))
    ∧ (∀ key, key ∉ SMM_PRODUCTS.*1 → smm_data !! key = None).
Proof.
  intros Hexn.
  set (sd := strftime_ymd (today - 45)). set (ed := strftime_ymd today).
  set (cd := strftime_ymd (today - 90)).
  assert (∀ w0, ∃ w1 smm_data,
            fetch_pass urlopen sd ed cd SMM_PRODUCTS ∅ w0 = (w1, Ok smm_data))
    as Hpass.
  { intros w0. apply fetch_pass_completes. intros key pid _.
    by apply product_series_total. }
  unfold fetch_phase, mbind, M_bind, print, emit. cbn beta iota.
  fold sd ed cd.
  match goal with
  | |- context [fetch_pass urlopen sd ed cd SMM_PRODUCTS ∅ ?w0] =>
      destruct (Hpass w0) as (w1 & smm_data & Hrun)
  end.
  exists w1, smm_data. rewrite Hrun. split; [done|].
  destruct (fetch_pass_entries _ _ _ _ _ SMM_PRODUCTS_NoDup _ _ _ _ Hrun)
    as [Hout Hin].
  split.
  - intros key pid Hkey. destruct (Hin key pid Hkey) as (data & Hd & Hm).
    exists data. split; [done|]. rewrite Hm, lookup_empty.
    by destruct data.
  - intros key Hkey. by rewrite Hout.
Qed.

(** C6: when, after the fetch pass, one of the required keys silver, wafer,
    silicon, cell has no entry or an empty one, [main] prints the list of
    missing keys and exits with status 1; from the fetch pass on it only
    prints (no file is read or written), so the Document Updater is not
    run and the files are as they were. *)
Theorem C6_missing_required_key_exits
    (urlopen : str → response) (today : Z) (w w1 : world)
    (smm_data : gmap (list N) (list PricePoint)) (k : str) :
  fetch_phase urlopen today w = (w1, Ok smm_data) →
  k ∈ required_keys →
  smm_data !! k = None ∨ smm_data !! k = Some [] →
  let missing := List.filter (is_missing smm_data) required_keys in
  main urlopen today w
  = ({| trace := trace w1 ++ [Console MsgRule; Console (MsgMissing missing);
                              Console MsgCheckNetwork];
        files := files w |},
     Raise (SystemExit 1))
  ∧ k ∈ missing
  ∧ exit_status (main urlopen today w).2 = 1%Z
  ∧ ∃ ms, trace (main urlopen today w).1 = trace w ++ map Console ms.
Proof.
  intros Hphase Hk Hmiss missing.
  assert (k ∈ missing) as Hin.
  { unfold missing. apply list_elem_of_In, filter_In.
    split; [by apply list_elem_of_In|].
    unfold is_missing. by destruct Hmiss as [-> | ->]. }
  destruct (fetch_phase_frame urlopen today w) as [Hf [ms Ht]].
  rewrite Hphase in Hf, Ht. cbn [fst] in Hf, Ht.
  assert (main urlopen today w
          = ({| trace := trace w1 ++ [Console MsgRule;
                                      Console (MsgMissing missing);
                                      Console MsgCheckNetwork];
                files := files w |}, Raise (SystemExit 1))) as Hmain.
  { rewrite main_after_fetch, Hphase. cbn zeta. fold missing.
    destruct missing as [|k0 missing'] eqn:Hm; [by apply elem_of_nil in Hin|].
    unfold printed. cbn. by rewrite Hf, <-!app_assoc. }
  rewrite Hmain. split; [done|]. split; [done|]. split; [done|].
  exists (ms ++ [MsgRule; MsgMissing missing; MsgCheckNetwork]).
  cbn. rewrite Ht, map_app, <-app_assoc. done.
Qed.

End OrchestratorClaims.

Lemma C1_witness :
  ∃ w1 smm_data,
    @fetch_phase example_runtime (λ _, Raises (HTTPError 404)) 739194
      empty_world = (w1, Ok smm_data)
    ∧ (∀ key product_id, (key, product_id) ∈ SMM_PRODUCTS →
         ∃ data,
           @product_series example_runtime (λ _, Raises (HTTPError 404))
             (@strftime_ymd example_runtime (739194 - 45))
             (@strftime_ymd example_runtime 739194)
             (@strftime_ymd example_runtime (739194 - 90)) key product_id
           = Ok data
           ∧ smm_data !! key = entry_of data
           ∧ default [] (smm_data !! key) = data
           ∧ (smm_data !! key = None ↔ data = []))
    ∧ (∀ key, key ∉ SMM_PRODUCTS.*1 → smm_data !! key = None).
Proof.
  apply (@C1_failed_fetch_leaves_key_absent example_runtime
           (λ _, Raises (HTTPError 404)) 739194 empty_world).
  intros url e [= <-]. reflexivity.
Defined.

Lemma C1_counterexample :
  (lit "silver", lit "202512220022") ∈ SMM_PRODUCTS
  ∧ ∃ w1 smm_data,
      @fetch_phase example_runtime (λ _, Raises (HTTPError 404)) 739194
        empty_world = (w1, Ok smm_data)
      ∧ smm_data !! lit "silver" = None
      ∧ smm_data !! lit "silver" ≠ Some [].
Proof.
  split; [by left|].
  eexists _, ∅. split; [vm_compute; reflexivity|]. done.
Qed.

Lemma C6_witness :
  let urlopen := λ _ : list N, Raises (HTTPError 404) in
  let w1 := (@fetch_phase example_runtime urlopen 739194 empty_world).1 in
  let missing := List.filter (is_missing ∅) required_keys in
  @main example_runtime urlopen 739194 empty_world
  = ({| trace := trace w1 ++ [Console MsgRule; Console (MsgMissing missing);
                              Console MsgCheckNetwork];
        files := files empty_world |},
     Raise (SystemExit 1))
  ∧ lit "cell" ∈ missing
  ∧ exit_status (@main example_runtime urlopen 739194 empty_world).2 = 1%Z
  ∧ ∃ ms, trace (@main example_runtime urlopen 739194 empty_world).1
          = trace empty_world ++ map Console ms.
Proof.
  intros urlopen w1.
  apply (@C6_missing_required_key_exits example_runtime urlopen 739194
           empty_world w1 ∅ (lit "cell")).
  - vm_compute. reflexivity.
  - apply (bool_decide_unpack _). vm_compute. exact I.
  - left. apply lookup_empty.
Defined.

(** * The Formatter *)

(** ** Grouping two by two *)

Lemma chunks_cons2 (a b : list N) (l : list (list N)) :
  chunks (a :: b :: l) = [a; b] :: chunks l.
Proof.
  unfold chunks. cbn [length].
  replace ((S (S (length l)) + 1) / 2)%nat with (S ((length l + 1) / 2)).
  - cbn [seq map]. f_equal. rewrite <-seq_shift, map_map.
    apply map_ext. intros k.
    replace (2 * S k)%nat with (S (S (2 * k))) by lia. reflexivity.
  - replace (S (S (length l)) + 1)%nat with ((length l + 1) + 1 * 2)%nat by lia.
    rewrite Nat.div_add by lia. lia.
Qed.

Lemma chunks_pairs (items : list (list N)) : chunks items = pairs items.
Proof.
  induction items as [items IH] using (induction_ltof1 _ length).
  destruct items as [|a [|b l]]; [reflexivity..|].
  rewrite chunks_cons2. cbn [pairs]. f_equal. apply IH.
  unfold ltof. cbn [length]. lia.
Qed.

Lemma pairs_concat {A} (l : list A) : concat (pairs l) = l.
Proof.
  induction l as [l IH] using (induction_ltof1 _ length).
  destruct l as [|a [|b l]]; [reflexivity..|].
  cbn [pairs concat app]. do 2 f_equal. apply IH. unfold ltof. cbn [length]. lia.
Qed.

Lemma pairs_map {A B} (f : A → B) (l : list A) :
  pairs (map f l) = map (map f) (pairs l).
Proof.
  induction l as [l IH] using (induction_ltof1 _ length).
  destruct l as [|a [|b l]]; [reflexivity..|].
  cbn [pairs map]. f_equal. apply IH. unfold ltof. cbn [length]. lia.
Qed.

Lemma pairs_nil_inv {A} (l : list A) : pairs l = [] → l = [].
Proof. destruct l as [|a [|b l]]; [done|discriminate..]. Qed.

(** Every group but the last holds two items; the last holds one or two. *)
Lemma pairs_lengths {A} (l : list A) (i : nat) (g : list A) :
  pairs l !! i = Some g →
  (length g = 2 ∨ (length g = 1 ∧ S i = length (pairs l)))%nat.
Proof.
  revert i. induction l as [l IH] using (induction_ltof1 _ length). intros i.
  destruct l as [|a [|b l]]; cbn [pairs].
  - discriminate.
  - destruct i; [|discriminate]. intros [= <-]. right. done.
  - destruct i as [|i]; [intros [= <-]; by left|].
    cbn [lookup list_lookup]. intros H.
    apply IH in H; [|unfold ltof; cbn [length]; lia].
    cbn [length]. destruct H as [H|[H1 H2]]; [by left|right; split; [done|lia]].
Qed.

(** ** The lexer on the emitted text *)

Lemma lex_spaces (ws s : str) :
  forallb js_space ws = true → lex (ws ++ s) Between = lex s Between.
Proof.
  induction ws as [|c ws IH]; [done|].
  cbn [forallb app]. intros [Hc Hws]%andb_prop.
  cbn [lex]. rewrite Hc. by apply IH.
Qed.

Lemma lex_string (d s acc : str) :
  forallb string_char d = true →
  lex (d ++ 34 :: s) (InString acc) = TString (rev acc ++ d) :: lex s Between.
Proof.
  revert acc. induction d as [|c d IH]; intros acc.
  - intros _. cbn [app lex]. rewrite app_nil_r. reflexivity.
  - cbn [forallb app]. intros [Hc Hd]%andb_prop.
    cbn [lex]. rewrite Hc.
    assert ((c =? 34) = false) as ->.
    { unfold string_char in Hc. destruct (c =? 34); [discriminate|done]. }
    rewrite IH by done. cbn [rev]. rewrite <-app_assoc. reflexivity.
Qed.

(** A character of a numeral is no white space, quote or punctuation. *)
Lemma num_step_word (q q' : num_state) (c : N) :
  num_step q c = Some q' →
  js_space c = false ∧ (c =? 34) = false ∧ punct c = None.
Proof.
  unfold num_step, ascii_digit. intros H.
  assert ((48 ≤ c ∧ c ≤ 57) ∨ c = 45 ∨ c = 43 ∨ c = 46 ∨ c = 101 ∨ c = 69)
    as Hc.
  { destruct (N.leb_spec 48 c), (N.leb_spec c 57); cbn [andb] in H;
      try (left; lia);
      (destruct (N.eqb_spec c 45); [tauto|]);
      (destruct (N.eqb_spec c 43); [tauto|]);
      (destruct (N.eqb_spec c 46); [tauto|]);
      (destruct (N.eqb_spec c 101); [tauto|]);
      (destruct (N.eqb_spec c 69); [tauto|]); discriminate. }
  clear H. unfold js_space, punct.
  destruct Hc as [Hc|Hc].
  - rewrite !(proj2 (N.eqb_neq c _)) by lia. done.
  - destruct Hc as [-> | [-> | [-> | [-> | ->]]]]; done.
Qed.

Lemma lex_numeral_tail (q : num_state) (n s acc : str) :
  num_run q n = true →
  lex (n ++ 125 :: s) (InWord acc)
  = TWord (rev acc ++ n) :: TCloseBrace :: lex s Between.
Proof.
  revert q acc. induction n as [|c n IH]; intros q acc.
  - intros _. cbn [app]. rewrite app_nil_r. reflexivity.
  - cbn [num_run app]. destruct (num_step q c) as [q'|] eqn:Hq; [|discriminate].
    intros Hn. destruct (num_step_word _ _ _ Hq) as (Hs & Hq34 & Hp).
    cbn [lex]. rewrite Hs, Hq34, Hp. rewrite (IH q') by done.
    cbn [rev]. rewrite <-app_assoc. reflexivity.
Qed.

Lemma lex_numeral (n s : str) :
  is_numeral n = true →
  lex (n ++ 125 :: s) Between = TWord n :: TCloseBrace :: lex s Between.
Proof.
  unfold is_numeral. destruct n as [|c n]; [discriminate|].
  cbn [num_run app]. destruct (num_step NStart c) as [q'|] eqn:Hq; [|discriminate].
  intros Hn. destruct (num_step_word _ _ _ Hq) as (Hs & Hq34 & Hp).
  cbn [lex]. rewrite Hs, Hq34, Hp.
  by rewrite (lex_numeral_tail q').
Qed.

Lemma lex_item_open (s : str) :
  lex (lit "{date: " ++ 34 :: s) Between
  = TOpenBrace :: TWord (lit "date") :: TColon :: lex s (InString []).
Proof. reflexivity. Qed.

Lemma lex_item_mid (s : str) :
  lex (lit ", price: " ++ s) Between
  = TComma :: TWord (lit "price") :: TColon :: lex s Between.
Proof. reflexivity. Qed.

Section FormatterProofs.
Context {rt : PyRuntime}.

Lemma format_item_eq (p : PricePoint) (s : str) :
  format_item p ++ s
  = lit "{date: " ++ 34 :: date p ++ 34 :: lit ", price: "
      ++ float_repr (price p) ++ 125 :: s.
Proof.
  unfold format_item. change (lit "}") with [125].
  rewrite <-!app_assoc. reflexivity.
Qed.

Lemma lex_item (p : PricePoint) (s : str) :
  quotable p → is_numeral (float_repr (price p)) = true →
  lex (format_item p ++ s) Between = item_tokens p ++ lex s Between.
Proof.
  intros Hd Hn. rewrite format_item_eq, lex_item_open, lex_string by done.
  rewrite lex_item_mid, lex_numeral by done. reflexivity.
Qed.

Lemma join_cons (sep x : str) (rest : list str) :
  rest ≠ [] → join sep (x :: rest) = x ++ sep ++ join sep rest.
Proof. destruct rest; done. Qed.

Lemma body_one (a : PricePoint) : body [a] = item_indent ++ format_item a.
Proof. reflexivity. Qed.

Lemma body_more (a b : PricePoint) (l : list PricePoint) :
  body (a :: b :: l)
  = item_indent ++ format_item a ++ lit ", " ++ format_item b
      ++ match l with [] => [] | _ => [44; 10] ++ body l end.
Proof.
  unfold body. cbn [map pairs].
  destruct (decide (l = [])) as [->|Hl].
  - cbn [map pairs join]. rewrite app_nil_r. reflexivity.
  - rewrite join_cons.
    + cbn [join]. rewrite <-!app_assoc. destruct l; done.
    + intros H%map_eq_nil%pairs_nil_inv%map_eq_nil. done.
Qed.

Lemma lex_comma_space (s : str) :
  lex (lit ", " ++ s) Between = TComma :: lex s Between.
Proof. reflexivity. Qed.

Lemma lex_comma_newline (s : str) :
  lex ([44; 10] ++ s) Between = TComma :: lex s Between.
Proof. reflexivity. Qed.

Lemma lex_body (data : list PricePoint) (s : str) :
  data ≠ [] →
  Forall quotable data →
  Forall (λ p, is_numeral (float_repr (price p)) = true) data →
  lex (body data ++ s) Between = series_tokens data ++ lex s Between.
Proof.
  revert s. induction data as [data IH] using (induction_ltof1 _ length).
  intros s. destruct data as [|a [|b l]]; [done|..]; intros _ Hq Hn.
  - apply Forall_inv in Hq, Hn.
    rewrite body_one, <-app_assoc.
    rewrite lex_spaces by reflexivity. by apply lex_item.
  - pose proof (Forall_inv Hq) as Hqa. pose proof (Forall_inv Hn) as Hna.
    apply Forall_inv_tail in Hq, Hn.
    pose proof (Forall_inv Hq) as Hqb. pose proof (Forall_inv Hn) as Hnb.
    apply Forall_inv_tail in Hq, Hn.
    rewrite body_more, <-!app_assoc.
    rewrite lex_spaces by reflexivity. rewrite lex_item by done.
    rewrite lex_comma_space, lex_item by done.
    destruct (decide (l = [])) as [->|Hl].
    { cbn [series_tokens app]. rewrite <-app_assoc. reflexivity. }
    assert (series_tokens (a :: b :: l)
            = item_tokens a ++ TComma :: item_tokens b ++ TComma
                :: series_tokens l) as ->.
    { cbn [series_tokens]. destruct l; [done|]. reflexivity. }
    replace (match l with [] => [] | _ => [44; 10] ++ body l end)
      with ([44; 10] ++ body l) by (by destruct l).
    rewrite <-!app_assoc, lex_comma_newline.
    rewrite IH; [|unfold ltof; cbn [length]; lia|done..].
    f_equal.
Qed.

Lemma format_data_for_js_body (data : list PricePoint) :
  data ≠ [] →
  format_data_for_js data = [91; 10] ++ body data ++ [10] ++ lit "            ]".
Proof.
  destruct data as [|p data]; [done|]. intros _.
  unfold format_data_for_js, body. rewrite chunks_pairs. reflexivity.
Qed.

Lemma lex_format (data : list PricePoint) :
  data ≠ [] →
  Forall quotable data →
  Forall (λ p, is_numeral (float_repr (price p)) = true) data →
  lex (format_data_for_js data) Between
  = TOpenBracket :: series_tokens data ++ [TCloseBracket].
Proof.
  intros Hne Hq Hn. rewrite format_data_for_js_body by done.
  change ([91; 10] ++ ?x) with (91 :: 10 :: x).
  change (lex (91 :: 10 :: ?x) Between) with (TOpenBracket :: lex x Between).
  rewrite lex_body by done. reflexivity.
Qed.

Lemma series_tokens_cons (p q : PricePoint) (l : list PricePoint) :
  series_tokens (p :: q :: l)
  = item_tokens p ++ TComma :: series_tokens (q :: l).
Proof. reflexivity. Qed.

Lemma parse_items_item (p : PricePoint) (rest : list token) :
  is_numeral (float_repr (price p)) = true →
  parse_items (item_tokens p ++ rest)
  = match rest with
    | [TCloseBracket] => Some [(date p, float_repr (price p))]
    | TComma :: rest' =>
        ((date p, float_repr (price p)) ::.) <$> parse_items rest'
    | _ => None
    end.
Proof.
  intros Hp. cbn [item_tokens app parse_items]. rewrite Hp. reflexivity.
Qed.

Lemma parse_items_series (data : list PricePoint) :
  data ≠ [] →
  Forall (λ p, is_numeral (float_repr (price p)) = true) data →
  parse_items (series_tokens data ++ [TCloseBracket])
  = Some (map (λ p, (date p, float_repr (price p))) data).
Proof.
  induction data as [|p data IH]; [done|]. intros _ Hn.
  pose proof (Forall_inv Hn) as Hp. apply Forall_inv_tail in Hn.
  destruct data as [|p' data].
  - cbn [series_tokens]. by rewrite parse_items_item.
  - rewrite series_tokens_cons, <-app_assoc, parse_items_item by done.
    cbn [app]. rewrite IH by done. reflexivity.
Qed.

Lemma parse_js_array_format (data : list PricePoint) :
  Forall quotable data →
  Forall (λ p, is_numeral (float_repr (price p)) = true) data →
  parse_js_array (format_data_for_js data)
  = Some (map (λ p, (date p, float_repr (price p))) data).
Proof.
  intros Hq Hn. destruct (decide (data = [])) as [->|Hne]; [reflexivity|].
  unfold parse_js_array. rewrite lex_format by done.
  destruct data as [|p data]; [done|].
  assert (∀ rest, series_tokens (p :: data) ++ rest
                  = TOpenBrace :: tail (series_tokens (p :: data) ++ rest)) as E.
  { intros rest. destruct data; reflexivity. }
  rewrite E. cbv iota. rewrite <-E. by apply parse_items_series.
Qed.

Lemma reparse_format (data : list PricePoint) :
  Forall quotable data → Forall numeric data →
  reparse (format_data_for_js data) = Some data.
Proof.
  intros Hq Hn. unfold reparse.
  rewrite parse_js_array_format; [|done|by eapply Forall_impl; [done|intros ? []]].
  cbn [mbind option_bind]. apply mapM_Some. clear Hq.
  induction Hn as [|p data [_ Hp] _ IH]; [constructor|].
  cbn [map]. constructor; [|done].
  cbn [fst snd]. rewrite Hp. by destruct p.
Qed.

End FormatterProofs.

(** ** The Formatter's claim *)

Section FormatterClaims.
Context {rt : PyRuntime}.


End FormatterClaims.



(** * Further properties of the script *)

(** ** The Fetcher *)

Section FetcherMore.
Context {rt : PyRuntime}.

Lemma status_ok_iff (status : option str) :
  status_ok status = true ↔ status = Some (lit "ok").
Proof.
  destruct status as [s|]; cbn [status_ok]; [|done].
  rewrite andb_true_iff, negb_true_iff, !bool_decide_eq_true, bool_decide_eq_false.
  split.
  - by intros [_ ->].
  - intros [= ->]. done.
Qed.

(** X1: a response whose status is anything but the text [ok] (a missing
    status and an empty one included) gives the empty series, with the
    warning as the only line printed and no exception. *)
Theorem fetch_status_not_ok_warns
    (urlopen : str → response) (product_id start_date end_date : str)
    (w : world) (status : option str) (rows : list row) :
  urlopen (fetch_url product_id start_date end_date) = Json status rows →
  status ≠ Some (lit "ok") →
  fetch_smm_data urlopen product_id start_date end_date w
  = (printed w MsgStatusWarning, Ok []).
Proof.
  intros Hu Hs. unfold fetch_smm_data, try_except. rewrite Hu.
  destruct (status_ok status) eqn:E; [by apply status_ok_iff in E|].
  reflexivity.
Qed.

(** X2: sorting only reorders.  When the status is ok and every record
    converts, the series holds the points of the records, each as often as
    the response has it (duplicate dates are kept), and the points of one
    date stay in the order of the response. *)
Theorem fetch_sort_keeps_records
    (urlopen : str → response) (product_id start_date end_date : str)
    (w : world) (rows : list row) (out : list PricePoint) :
  urlopen (fetch_url product_id start_date end_date)
    = Json (Some (lit "ok")) rows →
  fetch_rows rows [] = Ok out →
  ∃ series,
    fetch_smm_data urlopen product_id start_date end_date w = (w, Ok series)
    ∧ series ≡ₚ omap record_point rows
    ∧ length series = length (omap record_point rows)
    ∧ ∀ d, filter (λ p, date p = d) series
           = filter (λ p, date p = d) (omap record_point rows).
Proof.
  intros Hu Hr. exists (sorted out).
  pose proof (fetch_rows_ok _ _ _ Hr) as ->. cbn [app] in *.
  split; [|split; [apply sorted_perm|split; [by rewrite sorted_perm|]]].
  - unfold fetch_smm_data, try_except. rewrite Hu.
    change (status_ok (Some (lit "ok"))) with true. cbn [negb].
    unfold mbind, M_bind, lift, mret, M_ret. rewrite Hr. reflexivity.
  - intros d. apply sorted_stable.
Qed.

(** X3: whatever the transport does, a call of [fetch_smm_data] leaves the
    files as they are, reads and writes none, and prints at most one
    line. *)
Theorem fetch_prints_at_most_one_line
    (urlopen : str → response) (product_id start_date end_date : str)
    (w : world) :
  let w' := (fetch_smm_data urlopen product_id start_date end_date w).1 in
  files w' = files w
  ∧ ∃ ms, trace w' = trace w ++ map Console ms ∧ (length ms ≤ 1)%nat.
Proof.
  cbv zeta. split; [apply fetch_smm_data_files|].
  assert (∀ v : world, ∃ ms, trace v = trace v ++ map Console ms
                             ∧ (length ms ≤ 1)%nat) as Hnone.
  { intros v. exists []. split; [by rewrite app_nil_r|cbn; lia]. }
  assert (∀ (v : world) m, ∃ ms, trace (printed v m) = trace v ++ map Console ms
                                 ∧ (length ms ≤ 1)%nat) as Hone.
  { intros v m. exists [m]. split; [reflexivity|cbn; lia]. }
  unfold fetch_smm_data, try_except.
  destruct (urlopen _) as [e|status rows].
  - unfold raise. destruct e; first [apply Hone | apply Hnone].
  - destruct (status_ok status); cbn [negb]; [|apply Hone].
    unfold mbind, M_bind, lift, mret, M_ret.
    destruct (fetch_rows rows []) as [out|e] eqn:Hr; [apply Hnone|].
    pose proof (conversion_error_Exception _ (fetch_rows_exn _ _ _ Hr)) as He.
    destruct e; try discriminate; apply Hone.
Qed.

(** X4: an exception of the transport that is no [Exception] (an
    interrupt, an exit) is not caught: it leaves [fetch_smm_data] as it
    came, and nothing is printed. *)
Theorem fetch_base_exception_propagates
    (urlopen : str → response) (product_id start_date end_date : str)
    (w : world) (e : exn) :
  urlopen (fetch_url product_id start_date end_date) = Raises e →
  is_Exception e = false →
  fetch_smm_data urlopen product_id start_date end_date w = (w, Raise e).
Proof.
  intros Hu He. unfold fetch_smm_data, try_except. rewrite Hu.
  destruct e; try discriminate; reflexivity.
Qed.

End FetcherMore.

Lemma fetch_status_not_ok_warns_run :
  @fetch_smm_data example_runtime (λ _, Json (Some (lit "error")) sample_rows)
    (lit "202512220022") (lit "2024-09-20") (lit "2024-11-04") empty_world
  = (printed empty_world MsgStatusWarning, Ok []).
Proof.
  apply (@fetch_status_not_ok_warns example_runtime _ _ _ _ _
           (Some (lit "error")) sample_rows); [reflexivity|].
  intros H. vm_compute in H. discriminate.
Defined.

Lemma fetch_sort_keeps_records_run :
  ∃ series,
    @fetch_smm_data example_runtime (λ _, Json (Some (lit "ok")) sample_rows)
      (lit "202512220022") (lit "2024-09-20") (lit "2024-11-04") empty_world
    = (empty_world, Ok series)
    ∧ series ≡ₚ omap (@record_point example_runtime) sample_rows
    ∧ length series = length (omap (@record_point example_runtime) sample_rows)
    ∧ ∀ d, filter (λ p, date p = d) series
           = filter (λ p, date p = d)
               (omap (@record_point example_runtime) sample_rows).
Proof.
  eapply (@fetch_sort_keeps_records example_runtime _ _ _ _ _ sample_rows);
    [reflexivity|vm_compute; reflexivity].
Defined.

Lemma fetch_base_exception_propagates_run :
  @fetch_smm_data example_runtime (λ _, Raises KeyboardInterrupt)
    (lit "202512220022") (lit "2024-09-20") (lit "2024-11-04") empty_world
  = (empty_world, Raise KeyboardInterrupt).
Proof.
  by apply (@fetch_base_exception_propagates example_runtime).
Defined.

(** ** The Formatter *)

(** X5: the loop [for i in range(0, len(items), 2)] with its slices
    [items[i:i+2]] cuts the items into groups that, put end to end, are
    the items again: none is lost, repeated or moved.  There are
    [(n + 1) / 2] groups for [n] items; each holds two items, but the last
    holds one when [n] is odd. *)
Theorem chunks_two_per_line (items : list str) :
  concat (chunks items) = items
  ∧ length (chunks items) = ((length items + 1) / 2)%nat
  ∧ ∀ i chunk, chunks items !! i = Some chunk →
      (length chunk = 2
       ∨ (length chunk = 1 ∧ S i = length (chunks items)
          ∧ Nat.odd (length items) = true))%nat.
Proof.
  split; [by rewrite chunks_pairs, pairs_concat|].
  split; [unfold chunks; by rewrite length_map, length_seq|].
  intros i chunk Hi. rewrite chunks_pairs in Hi |- *.
  destruct (pairs_lengths _ _ _ Hi) as [H|[H1 H2]]; [by left|right].
  split; [done|]. split; [done|].
  rewrite <-(pairs_concat items) at 1.
  clear H2. revert i Hi.
  induction items as [items IH] using (induction_ltof1 _ length). intros i Hi.
  destruct items as [|a [|b l]]; cbn [pairs] in *.
  - discriminate.
  - reflexivity.
  - destruct i as [|i]; cbn [lookup list_lookup] in Hi.
    + injection Hi as <-. discriminate.
    + cbn [concat app length]. rewrite Nat.odd_succ, Nat.even_succ.
      apply (IH l) in Hi; [done|unfold ltof; cbn [length]; lia].
Qed.

(** ** The Document Updater *)

Section UpdaterMore.
Context {rt : PyRuntime}.

(** X6: what the block pattern finds.  The leftmost match of
    [// SMM真实数据.*?const smmData = \{.*?\n        \};] starts at the
    first comment marker that is followed by a declaration marker and,
    after it, a closing marker; it runs to the end of the first closing
    marker after the first declaration marker: backtracking adds nothing to
    three plain searches. *)
Theorem block_pattern_three_searches (s : str) (i n : nat) :
  search pattern s = Some (i, n)
  ↔ block_match (drop i s) = Some n ∧ (i ≤ length s)%nat
    ∧ ∀ j, (j < i)%nat → block_match (drop j s) = None.
Proof.
  rewrite search_Some, match_here_pattern.
  split; intros (H1 & H2 & H3); (split; [done|split; [done|]]);
    intros j Hj; [rewrite <-match_here_pattern|rewrite match_here_pattern];
    by apply H3.
Qed.

(** X7: when the document does not exist, [update_html_file] raises the
    error of [open] after the attempt to read; nothing is written or
    printed. *)
Theorem update_html_file_missing_file
    (path : str) (smm_data : gmap (list N) (list PricePoint))
    (update_date : str) (w : world) :
  files w !! path = None →
  update_html_file path smm_data update_date w
  = ({| trace := trace w ++ [FileRead path]; files := files w |},
     Raise FileNotFoundError).
Proof.
  intros Hf. unfold update_html_file, mbind, M_bind, read_file.
  rewrite Hf. reflexivity.
Qed.

(** X8: a replacement text with a backslash that is no template (a date
    of the data set holding one, say) makes [re.sub] raise before the
    document is searched: [update_html_file] raises [re.error] whether or
    not the document has a block, and the document is read but not
    written. *)
Theorem update_html_file_bad_template
    (path : str) (smm_data : gmap (list N) (list PricePoint))
    (update_date content : str) (w : world) :
  files w !! path = Some content →
  has_backslash (smm_data_js smm_data update_date) = true →
  compile_template (smm_data_js smm_data update_date) = None →
  update_html_text smm_data update_date content = Raise ReError
  ∧ update_html_file path smm_data update_date w
    = ({| trace := trace w ++ [FileRead path]; files := files w |},
       Raise ReError).
Proof.
  intros Hf Hb Hc.
  assert (update_html_text smm_data update_date content = Raise ReError) as E.
  { unfold update_html_text, re_sub, prepare_template. rewrite Hb, Hc.
    reflexivity. }
  split; [done|]. by eapply update_html_file_raise.
Qed.

(** X9: the block is made of the twelve series read with
    [smm_data.get(key, [])]: two data sets that give the same series for
    the keys of the registry, an absent key counting as an empty series,
    give the same block, whatever else they hold. *)
Theorem smm_data_js_registry_keys_only
    (smm_data1 smm_data2 : gmap (list N) (list PricePoint)) (update_date : str) :
  (∀ key, key ∈ SMM_PRODUCTS.*1 →
     default [] (smm_data1 !! key) = default [] (smm_data2 !! key)) →
  smm_data_js smm_data1 update_date = smm_data_js smm_data2 update_date.
Proof.
  intros H.
  assert (∀ key last, lit key ∈ SMM_PRODUCTS.*1 →
            field smm_data1 key last = field smm_data2 key last) as Hfield.
  { intros key last Hk. unfold field, series_of. by rewrite (H _ Hk). }
  unfold smm_data_js.
  rewrite !Hfield;
    [reflexivity|apply (bool_decide_unpack _); vm_compute; exact I..].
Qed.

End UpdaterMore.

Lemma update_html_file_missing_file_run :
  @update_html_file example_runtime html_path sample_data (lit "2024-06-01")
    empty_world
  = ({| trace := [FileRead html_path]; files := ∅ |}, Raise FileNotFoundError).
Proof.
  by apply (@update_html_file_missing_file example_runtime).
Defined.

Lemma update_html_file_bad_template_run :
  @update_html_text example_runtime backslash_data (lit "2024-06-01") stamp_only
  = Raise ReError
  ∧ @update_html_file example_runtime html_path backslash_data (lit "2024-06-01")
      (world_with html_path stamp_only)
    = ({| trace := [FileRead html_path]; files := {[html_path := stamp_only]} |},
       Raise ReError).
Proof.
  apply (@update_html_file_bad_template example_runtime html_path backslash_data
           (lit "2024-06-01") stamp_only (world_with html_path stamp_only)).
  - reflexivity.
  - vm_compute. reflexivity.
  - reflexivity.
Defined.

Lemma smm_data_js_registry_keys_only_run :
  @smm_data_js example_runtime (<[lit "gold" := sample_series]> sample_data)
    (lit "2024-06-01")
  = @smm_data_js example_runtime (<[lit "cell" := []]> sample_data)
      (lit "2024-06-01").
Proof.
  apply (@smm_data_js_registry_keys_only example_runtime).
  intros key Hk.
  assert (key ≠ lit "gold") as Hg.
  { intros ->. apply (bool_decide_pack _) in Hk. vm_compute in Hk. exact Hk. }
  rewrite lookup_insert_ne by done.
  destruct (decide (key = lit "cell")) as [->|Hc].
  - by rewrite lookup_insert.
  - by rewrite lookup_insert_ne.
Defined.

Section StampMore.
Context {rt : PyRuntime}.

Lemma sub_scan_stamp_length (repl : str) (k : nat) (s : str) :
  length repl = 18%nat → (k ≤ length s)%nat →
  (length (sub_scan stamp_pattern (λ _, repl) k s) + k)%nat = length s.
Proof.
  intros Hr. revert k. induction s as [|c s IH]; intros k Hk.
  - cbn [length] in Hk. assert (k = 0%nat) as -> by lia.
    cbn [sub_scan]. rewrite match_here_stamp. reflexivity.
  - destruct k as [|k]; cbn [sub_scan].
    + destruct (match_here stamp_pattern (c :: s)) as [n|] eqn:Hm.
      * pose proof (match_here_le _ _ _ Hm) as Hle.
        rewrite match_here_stamp in Hm.
        destruct (is_stamp (c :: s)); [|discriminate]. injection Hm as <-.
        cbn [length] in Hle |- *.
        rewrite length_app, Hr. specialize (IH 17%nat ltac:(lia)). lia.
      * cbn [length]. specialize (IH 0%nat ltac:(lia)). lia.
    + cbn [length] in Hk |- *. specialize (IH k ltac:(lia)). lia.
Qed.

(** X14: the date stamps the second substitution finds are the label
    followed by [dddd-dd-dd], eighteen characters; with an update date of
    ten characters, as [strftime('%Y-%m-%d')] gives for a four-digit year,
    the substitution keeps the length of the text, however many stamps it
    replaces. *)
Theorem stamp_substitution_keeps_length (update_date s : str) :
  has_backslash update_date = false →
  length update_date = 10%nat →
  (∀ i n, search stamp_pattern s = Some (i, n) →
     n = 18%nat ∧ is_stamp (drop i s) = true)
  ∧ ∃ s', re_sub stamp_pattern (stamp_label ++ update_date) s = Ok s'
          ∧ length s' = length s.
Proof.
  intros Hb Hl. split.
  - intros i n (Hm & _ & _)%search_Some. rewrite match_here_stamp in Hm.
    destruct (is_stamp (drop i s)); [|discriminate]. by injection Hm as <-.
  - eexists. split.
    + apply re_sub_literal. unfold has_backslash in *.
      rewrite existsb_app, Hb. reflexivity.
    + pose proof (sub_scan_stamp_length (stamp_label ++ update_date) 0 s) as H.
      rewrite length_app, Hl in H. specialize (H eq_refl ltac:(lia)). lia.
Qed.

End StampMore.

Lemma stamp_substitution_keeps_length_run :
  (∀ i n, @search example_runtime stamp_pattern stamp_only = Some (i, n) →
     n = 18%nat ∧ @is_stamp example_runtime (drop i stamp_only) = true)
  ∧ ∃ s', @re_sub example_runtime stamp_pattern
            (stamp_label ++ lit "2024-06-01") stamp_only = Ok s'
          ∧ length s' = length stamp_only.
Proof.
  by apply (@stamp_substitution_keeps_length example_runtime
              (lit "2024-06-01") stamp_only).
Defined.

(** ** Running the updater on its own output *)

Section Rerun.
Context {rt : PyRuntime}.
Local Open Scope nat_scope.

Lemma find_eq (a s : str) :
  find a s = if starts_with a s then Some 0
             else match s with [] => None | _ :: s' => S <$> find a s' end.
Proof. by destruct s. Qed.

(** The first occurrence of [a] is at or before any occurrence. *)
Lemma find_app_le (a u v : str) :
  ∃ i, find a (u ++ a ++ v) = Some i ∧ i ≤ length u.
Proof.
  induction u as [|c u (i & Hi & Hle)].
  - exists 0. cbn [app]. by rewrite find_eq, starts_with_app.
  - rewrite find_eq. destruct (starts_with a ((c :: u) ++ a ++ v)).
    + exists 0. split; [done|lia].
    + exists (S i). cbn [app]. rewrite Hi. split; [done|cbn [length]; lia].
Qed.

Lemma starts_with_close_semicolon (s : str) :
  starts_with block_close s = true → s !! 10 = Some 59%N.
Proof. intros H%starts_with_inv. by rewrite H. Qed.

(** Before its semicolon the closing marker has none. *)
Lemma block_close_semicolon (m : nat) :
  m < 10 → block_close !! m ≠ Some 59%N.
Proof. intros Hm. do 10 (destruct m as [|m]; [done|]). lia. Qed.

Lemma find_close_after (t c : str) :
  no_semicolon t →
  find block_close (t ++ block_close ++ c) = Some (length t).
Proof.
  unfold no_semicolon. induction t as [|x t IH]; intros Ht.
  - cbn [app]. by rewrite find_eq, starts_with_app.
  - rewrite find_eq.
    destruct (starts_with block_close ((x :: t) ++ block_close ++ c)) eqn:Hs.
    + exfalso. apply starts_with_close_semicolon in Hs.
      destruct (decide (10 < length (x :: t))) as [Hlt|Hge].
      * rewrite lookup_app_l in Hs by done.
        rewrite forallb_forall in Ht.
        specialize (Ht 59%N (proj1 (list_elem_of_In _ _)
                                (list_elem_of_lookup_2 _ _ _ Hs))).
        done.
      * rewrite lookup_app_r in Hs by lia.
        cbn [length] in *.
        assert (10 - S (length t) < 10) as Hm by lia.
        rewrite lookup_app_l in Hs by (change (length block_close) with 11; lia).
        by apply block_close_semicolon in Hs.
    + cbn [forallb] in Ht. apply andb_true_iff in Ht as [_ Ht].
      cbn [app length]. by rewrite IH.
Qed.

Lemma no_semicolon_drop (k : nat) (s : str) :
  no_semicolon s → no_semicolon (drop k s).
Proof.
  unfold no_semicolon. revert k. induction s as [|x s IH]; intros [|k]; try done.
  cbn [forallb drop]. intros [_ H]%andb_true_iff. by apply IH.
Qed.

(** A text from a comment marker to a closing marker, with a declaration
    marker in between and no semicolon before the closing one, is what the
    block pattern matches at its head, whatever follows it. *)
Lemma block_match_whole (m r c : str) :
  no_semicolon (m ++ block_decl ++ r) →
  block_match ((block_head ++ m ++ block_decl ++ r ++ block_close) ++ c)
  = Some (length (block_head ++ m ++ block_decl ++ r ++ block_close)).
Proof.
  intros Hfree. unfold block_match.
  rewrite <-!app_assoc, starts_with_app, drop_app_length.
  destruct (find_app_le block_decl m (r ++ block_close ++ c)) as (i & Hi & Hle).
  rewrite Hi. cbn [mbind option_bind].
  set (k := i + length block_decl).
  assert (k ≤ length (m ++ block_decl ++ r)) as Hk.
  { rewrite !length_app. unfold k. lia. }
  replace (m ++ block_decl ++ r ++ block_close ++ c)
    with ((m ++ block_decl ++ r) ++ block_close ++ c)
    by by rewrite <-!app_assoc.
  rewrite drop_app_le by done.
  rewrite find_close_after by by apply no_semicolon_drop.
  cbn [mbind option_bind]. f_equal.
  rewrite length_drop, !length_app in *. lia.
Qed.

Lemma format_item_no_semicolon (p : PricePoint) :
  no_semicolon (date p) → no_semicolon (float_repr (price p)) →
  no_semicolon (format_item p).
Proof.
  unfold no_semicolon, format_item. intros Hd Hp.
  rewrite !forallb_app, Hd, Hp. reflexivity.
Qed.

Lemma format_data_for_js_no_semicolon (data : list PricePoint) :
  Forall (λ p, no_semicolon (date p) ∧ no_semicolon (float_repr (price p)))
    data →
  no_semicolon (format_data_for_js data).
Proof.
  intros H. destruct data as [|p data]; [reflexivity|].
  unfold no_semicolon, format_data_for_js. set (ps := p :: data) in *.
  rewrite !forallb_app.
  apply andb_true_intro; split; [reflexivity|].
  apply andb_true_intro; split; [|reflexivity].
  apply forallb_join; [reflexivity|].
  apply Forall_fmap. rewrite chunks_pairs.
  assert (Forall (λ s, forallb (λ c, negb (c =? 59)%N) s = true)
            (map format_item ps)) as Hitems.
  { apply Forall_fmap. eapply Forall_impl; [exact H|].
    intros q [Hq1 Hq2]. by apply format_item_no_semicolon. }
  apply Forall_forall. intros chunk Hchunk. unfold compose.
  rewrite forallb_app. apply andb_true_intro; split; [reflexivity|].
  apply forallb_join; [reflexivity|].
  rewrite Forall_forall in Hitems |- *. intros s Hs. apply Hitems.
  rewrite <-(pairs_concat (map format_item ps)).
  apply list_elem_of_In, in_concat. exists chunk.
  split; by apply list_elem_of_In.
Qed.

Lemma series_no_semicolon smm_data (key : string) :
  dataset_no_semicolon smm_data →
  no_semicolon (format_data_for_js (series_of smm_data key)).
Proof.
  intros Hd. apply format_data_for_js_no_semicolon. unfold series_of.
  destruct (smm_data !! lit key) as [series|] eqn:Hk; [|done].
  apply Forall_forall. intros p Hp. by eapply Hd.
Qed.

Lemma field_no_semicolon smm_data (key : string) (last : bool) :
  no_semicolon (lit key) →
  dataset_no_semicolon smm_data →
  no_semicolon (field smm_data key last).
Proof.
  intros Hkey Hd. pose proof (series_no_semicolon smm_data key Hd) as Hf.
  unfold no_semicolon, field in *.
  rewrite !forallb_app, Hf, Hkey. by destruct last.
Qed.

Lemma block_rest_no_semicolon smm_data :
  dataset_no_semicolon smm_data → no_semicolon (block_rest smm_data).
Proof.
  intros Hd. unfold block_rest.
  pose proof (series_no_semicolon smm_data "topconSemi" Hd) as Hlast.
  pose proof (λ key H, field_no_semicolon smm_data key false H Hd) as Hfield.
  unfold no_semicolon in *.
  rewrite !forallb_app, Hlast, !Hfield by reflexivity.
  reflexivity.
Qed.

Lemma block_mid_no_semicolon update_date :
  no_semicolon update_date → no_semicolon (block_mid update_date).
Proof.
  unfold no_semicolon, block_mid. intros H.
  rewrite !forallb_app, H. reflexivity.
Qed.

Lemma block_open_eq :
  lit "        // SMM真实数据 (" = block_indent ++ block_head ++ lit " (".
Proof. vm_compute. reflexivity. Qed.

Lemma block_decl_eq :
  lit "        const smmData = {" = block_indent ++ block_decl.
Proof. vm_compute. reflexivity. Qed.

Lemma block_close_eq : [10%N] ++ lit "        };" = block_close.
Proof. vm_compute. reflexivity. Qed.

(** The block, cut at its markers. *)
Lemma smm_data_js_parts smm_data update_date :
  smm_data_js smm_data update_date
  = block_indent
      ++ (block_head ++ block_mid update_date ++ block_decl
            ++ block_rest smm_data ++ block_close).
Proof.
  unfold smm_data_js, block_mid, block_rest.
  rewrite block_open_eq, block_decl_eq, <-block_close_eq.
  unfold field at 12.
  change ((if true then [] else [44%N]) ++ [10%N]) with [10%N].
  rewrite <-!app_assoc. reflexivity.
Qed.

End Rerun.

Section RerunClaims.
Context {rt : PyRuntime}.
Local Open Scope nat_scope.

Lemma block_indent_no_match (x : str) (j : nat) :
  j < 8 → match_here pattern (drop j (block_indent ++ x)) = None.
Proof.
  intros Hj. rewrite match_here_pattern.
  do 8 (destruct j as [|j]; [reflexivity|]). lia.
Qed.

(** X15: the block that a run writes starts with eight spaces, and the
    block pattern starts at the comment marker.  In a text that holds such
    a block (its dates, update date and prices without a semicolon) the
    leftmost match of the pattern is the block without its eight spaces,
    up to its own closing marker; so the substitution puts the new block
    after those spaces: every further run moves the block eight columns to
    the right, and a run on its own output is no identity. *)
Theorem block_moves_right_on_rerun
    (smm_data : gmap (list N) (list PricePoint))
    (update_date repl c : str) :
  dataset_no_semicolon smm_data →
  no_semicolon update_date →
  has_backslash repl = false →
  let js := smm_data_js smm_data update_date in
  search pattern (js ++ c) = Some (8, length js - 8)
  ∧ re_sub pattern repl (js ++ c)
    = Ok (block_indent ++ repl ++ sub_scan pattern (λ _, repl) 0 c).
Proof.
  intros Hd Hu Hb. cbv zeta. rewrite smm_data_js_parts.
  set (blk := block_head ++ block_mid update_date ++ block_decl
                ++ block_rest smm_data ++ block_close).
  assert (match_here pattern (blk ++ c) = Some (length blk)) as Hm.
  { rewrite match_here_pattern. apply block_match_whole.
    pose proof (block_mid_no_semicolon _ Hu) as H1.
    pose proof (block_rest_no_semicolon _ Hd) as H2.
    unfold no_semicolon in *. rewrite !forallb_app, H1, H2. reflexivity. }
  assert (blk ≠ []) as Hne by done.
  rewrite <-app_assoc. split.
  - apply search_Some. split; [|split].
    + change 8 with (length block_indent) at 1. rewrite drop_app_length.
      rewrite Hm. reflexivity.
    + rewrite length_app. change (length block_indent) with 8. lia.
    + intros j Hj. by apply block_indent_no_match.
  - rewrite re_sub_literal by done. f_equal.
    rewrite sub_scan_gap by (intros i Hi; by apply block_indent_no_match).
    by rewrite sub_scan_match.
Qed.

End RerunClaims.

Lemma dataset_no_semicolon_sample :
  @dataset_no_semicolon example_runtime sample_data.
Proof.
  intros k series p Hk Hp. unfold sample_data in Hk.
  apply lookup_singleton_Some in Hk as [_ <-].
  apply list_elem_of_In in Hp.
  destruct Hp as [<-|[<-|[]]]; split; vm_compute; reflexivity.
Qed.

Lemma block_moves_right_on_rerun_run :
  let js := @smm_data_js example_runtime sample_data (lit "2024-06-01") in
  @search example_runtime pattern (js ++ page_tail)
  = Some (8, length js - 8)%nat
  ∧ @re_sub example_runtime pattern js (js ++ page_tail)
    = Ok (block_indent ++ js ++ page_tail).
Proof.
  intros js.
  destruct (@block_moves_right_on_rerun example_runtime sample_data
              (lit "2024-06-01") js page_tail) as [H1 H2].
  - exact dataset_no_semicolon_sample.
  - reflexivity.
  - vm_compute. reflexivity.
  - unfold js in *. split; [exact H1|]. rewrite H2.
    rewrite sub_scan_none by (vm_compute; reflexivity). reflexivity.
Defined.

(** ** The Orchestrator *)

Section OrchestratorMore.
Context {rt : PyRuntime}.

Lemma print_summary_run smm_data keys w :
  ∃ ms, print_summary smm_data keys w
        = ({| trace := trace w ++ map Console ms; files := files w |}, Ok ())
        ∧ length ms
          = length (List.filter (λ k, negb (is_missing smm_data k)) keys).
Proof.
  revert w. induction keys as [|key keys IH]; intros w.
  - exists []. cbn. rewrite app_nil_r. by destruct w.
  - cbn [print_summary List.filter]. unfold mbind, M_bind.
    destruct (is_missing smm_data key) eqn:Hm; cbn [negb].
    + unfold mret, M_ret. apply IH.
    + unfold is_missing in Hm.
      destruct (smm_data !! key) as [[|p l]|] eqn:Hk; try discriminate.
      cbn [default id]. unfold lift, py_last.
      destruct (last (p :: l)) as [x|] eqn:Hl; [|by apply last_None in Hl].
      unfold print, emit.
      destruct (IH {| trace := trace w ++ [Console (MsgSummary
                        (dict_get PRODUCT_NAMES key key) x)];
                      files := files w |}) as (ms & -> & Hlen).
      eexists (_ :: ms). cbn [trace files map length].
      rewrite <-app_assoc. split; [reflexivity|by rewrite Hlen].
Qed.

Lemma required_present smm_data :
  (∀ k, k ∈ required_keys → is_missing smm_data k = false) →
  List.filter (is_missing smm_data) required_keys = [].
Proof.
  intros H. unfold required_keys. cbn [List.filter].
  rewrite !H; [reflexivity|apply (bool_decide_unpack _); vm_compute; exact I..].
Qed.


(** X11: when every required product has a series but the document does
    not exist, the error of the update is caught in [main]: it is
    reported, the run ends with exit status 1, and no file is written. *)
Theorem main_missing_document_exits
    (urlopen : str → response) (today : Z) (w w1 : world)
    (smm_data : gmap (list N) (list PricePoint)) :
  fetch_phase urlopen today w = (w1, Ok smm_data) →
  (∀ k, k ∈ required_keys → is_missing smm_data k = false) →
  files w !! html_path = None →
  main urlopen today w
  = ({| trace := trace w1
           ++ [Console MsgRule; FileRead html_path;
               Console (MsgUpdateFailed FileNotFoundError)];
        files := files w |}, Raise (SystemExit 1))
  ∧ exit_status (main urlopen today w).2 = 1%Z.
Proof.
  intros Hphase Hreq Hfile.
  pose proof (fetch_phase_frame urlopen today w) as [Hf _].
  rewrite Hphase in Hf. cbn [fst] in Hf.
  assert (main urlopen today w
          = ({| trace := trace w1
                   ++ [Console MsgRule; FileRead html_path;
                       Console (MsgUpdateFailed FileNotFoundError)];
                files := files w |}, Raise (SystemExit 1))) as E.
  { rewrite main_after_fetch, Hphase. cbv zeta.
    rewrite (required_present _ Hreq).
    unfold try_except, update_html_file, mbind, M_bind, read_file, printed.
    cbn [files trace]. rewrite Hf, Hfile.
    cbn [is_Exception]. unfold print, emit, raise.
    cbn [trace files]. by rewrite <-!app_assoc. }
  by rewrite E.
Qed.

(** X12: an interrupt raised by the transport (no [Exception]) ends the
    fetch loop at the first product and leaves [main] as it came: nothing
    is caught, no product is stored, no file is read or written. *)
Theorem main_interrupt_propagates
    (urlopen : str → response) (today : Z) (w : world) (e : exn) :
  (∀ url, urlopen url = Raises e) →
  is_Exception e = false →
  (main urlopen today w).2 = Raise e
  ∧ files (main urlopen today w).1 = files w
  ∧ ∃ ms, trace (main urlopen today w).1 = trace w ++ map Console ms.
Proof.
  intros Hu He.
  assert (∃ w1, fetch_phase urlopen today w = (w1, Raise e)) as [w1 Hphase].
  { unfold fetch_phase, mbind, M_bind, print, emit. cbn beta iota.
    unfold SMM_PRODUCTS. rewrite fetch_pass_step. cbv zeta.
    rewrite fetch_product_value. unfold product_series, fetch_series.
    destruct (bool_decide _); rewrite Hu, He; eauto. }
  pose proof (fetch_phase_frame urlopen today w) as [Hf Ht].
  rewrite Hphase in Hf, Ht. cbn [fst] in Hf, Ht.
  rewrite main_after_fetch, Hphase. done.
Qed.

(** X13: the tables of the script agree.  Every product of the registry
    has a display name of its own, so the fall-back of
    [PRODUCT_NAMES.get(key, key)] is never used; the keys of the registry
    are distinct; the required, cost-index and summary keys are keys of the
    registry. *)
Theorem registry_tables_agree :
  SMM_PRODUCTS.*1 = PRODUCT_NAMES.*1
  ∧ NoDup SMM_PRODUCTS.*1
  ∧ (∀ key product_id, (key, product_id) ∈ SMM_PRODUCTS →
       (key, dict_get PRODUCT_NAMES key key) ∈ PRODUCT_NAMES)
  ∧ required_keys ⊆ SMM_PRODUCTS.*1
  ∧ cost_keys ⊆ SMM_PRODUCTS.*1
  ∧ summary_keys ⊆ SMM_PRODUCTS.*1.
Proof.
  split; [reflexivity|]. split; [apply SMM_PRODUCTS_NoDup|].
  split.
  - intros key pid Hin.
    assert (Forall (λ kp, (kp.1, dict_get PRODUCT_NAMES kp.1 kp.1)
                          ∈ PRODUCT_NAMES) SMM_PRODUCTS) as HF.
    { unfold SMM_PRODUCTS.
      repeat constructor; apply (bool_decide_unpack _); vm_compute; exact I. }
    rewrite Forall_forall in HF. apply (HF _ Hin).
  - repeat split; intros k Hk; revert k Hk;
      apply (proj1 (Forall_forall (λ k, k ∈ SMM_PRODUCTS.*1) _));
      repeat constructor; apply (bool_decide_unpack _); vm_compute; exact I.
Qed.

End OrchestratorMore.


Lemma main_missing_document_exits_run :
  let urlopen := λ _ : list N, Json (Some (lit "ok")) sample_rows in
  (@main example_runtime urlopen 739194 empty_world).2 = Raise (SystemExit 1)
  ∧ files (@main example_runtime urlopen 739194 empty_world).1 = ∅
  ∧ exit_status (@main example_runtime urlopen 739194 empty_world).2 = 1%Z.
Proof.
  intros urlopen.
  pose (r := @fetch_phase example_runtime urlopen 739194 empty_world).
  pose (smm_data := match r.2 with Ok m => m | Raise _ => ∅ end).
  destruct (@main_missing_document_exits example_runtime urlopen 739194
              empty_world r.1 smm_data) as (E & _).
  - vm_compute. reflexivity.
  - intros k Hk. revert k Hk.
    apply (proj1 (Forall_forall (λ k, is_missing smm_data k = false) _)).
    repeat constructor; vm_compute; reflexivity.
  - reflexivity.
  - rewrite E. cbn [fst snd files exit_status]. repeat split.
Defined.

Lemma main_interrupt_propagates_run :
  let urlopen := λ _ : list N, Raises KeyboardInterrupt in
  let w := world_with html_path stamp_only in
  (@main example_runtime urlopen 739194 w).2 = Raise KeyboardInterrupt
  ∧ files (@main example_runtime urlopen 739194 w).1 = files w
  ∧ ∃ ms, trace (@main example_runtime urlopen 739194 w).1
          = trace w ++ map Console ms.
Proof.
  intros urlopen w.
  by apply (@main_interrupt_propagates example_runtime urlopen 739194 w
              KeyboardInterrupt).
Defined.
